(** * paintmixr: the comment rewriter [fix-syntax.py] and the duplication
      report comparison [scripts/compare-duplication-reports.py]

    A shallow embedding of the two scripts, the properties their
    specification states about them, and further properties of the code.

    Python [str] values are sequences of Unicode code points; they are
    modelled as lists of code points ([N]).  Indices and lengths are [nat];
    the one place where the source computes [len(content) - 1], which is
    [-1] on the empty string, is written over [Z].  A Python [int] is a
    [Z], a [float] a binary64 number of the standard library's
    [SpecFloat]. *)

From Stdlib Require Import String Ascii.
From Stdlib Require Import List NArith ZArith Lia Bool.
From Stdlib Require Import SpecFloat Permutation.
Import ListNotations.

(** ** Python strings *)

Module PyStr.

Abbreviation char := N (only parsing).
Abbreviation str := (list N) (only parsing).

(** A literal: the code points of an ASCII string. *)
Definition lit (s : string) : str :=
  List.map N_of_ascii (list_ascii_of_string s).

Definition char_eqb (a b : char) : bool := N.eqb a b.

(** [a == b] on strings. *)
Fixpoint str_eqb (a b : str) : bool :=
  match a, b with
  | [], [] => true
  | x :: a', y :: b' => char_eqb x y && str_eqb a' b'
  | _, _ => false
  end.

(** [s[a:b]] for non-negative [a] and [b]: empty when [b <= a], clipped
    at the end of [s]. *)
Definition slice (s : str) (a b : nat) : str := firstn (b - a) (skipn a s).

(** [s[i]] under a guard [i < len(s)]; the default is never reached
    there (see [index_in_range]). *)
Definition index (s : str) (i : nat) : char := nth i s 0%N.

(** [c.isspace()]: the code points CPython's [_PyUnicode_IsWhitespace]
    accepts; these are what [str.strip()] and [str.lstrip()] remove. *)
Definition isspace (c : char) : bool :=
  ((9 <=? c) && (c <=? 13) || (28 <=? c) && (c <=? 32)
   || (c =? 133) || (c =? 160) || (c =? 5760)
   || (8192 <=? c) && (c <=? 8202)
   || (c =? 8232) || (c =? 8233) || (c =? 8239) || (c =? 8287)
   || (c =? 12288))%N.

(** [s.lstrip()] *)
Fixpoint lstrip (s : str) : str :=
  match s with
  | [] => []
  | c :: t => if isspace c then lstrip t else s
  end.

(** [s.rstrip()] *)
Definition rstrip (s : str) : str := rev (lstrip (rev s)).

(** [s.strip()] *)
Definition strip (s : str) : str := lstrip (rstrip s).

(** Truth value of a string: non-empty. *)
Definition truthy (s : str) : bool :=
  match s with [] => false | _ :: _ => true end.

(** [s.split(sep)] for a one-character separator: always at least one
    field. *)
Fixpoint split (sep : char) (s : str) : list str :=
  match s with
  | [] => [[]]
  | c :: t =>
      if char_eqb c sep then [] :: split sep t
      else match split sep t with
           | l :: ls => (c :: l) :: ls
           | [] => [[c]]
           end
  end.

(** [sep.join(parts)] *)
Fixpoint join (sep : str) (parts : list str) : str :=
  match parts with
  | [] => []
  | [p] => p
  | p :: ps => p ++ sep ++ join sep ps
  end.

(** [s.startswith(p)] *)
Fixpoint startswith (p s : str) : bool :=
  match p, s with
  | [], _ => true
  | x :: p', y :: s' => char_eqb y x && startswith p' s'
  | _ :: _, [] => false
  end.

(** [p in s] *)
Fixpoint contains (p s : str) : bool :=
  startswith p s ||
  match s with
  | [] => false
  | _ :: t => contains p t
  end.

(** [s.find(p)]: the least index at which [p] occurs, if any. *)
Fixpoint find (p s : str) : option nat :=
  if startswith p s then Some 0
  else match s with
       | [] => None
       | _ :: t => option_map S (find p t)
       end.

End PyStr.

Import PyStr.

(** ** Python numbers *)

Module PyNum.

(** The exceptions the arithmetic of the script can raise. *)
Inductive exn := ZeroDivisionError | OverflowError.

(** A Python [float] is an IEEE 754 binary64 number. *)
Definition prec : Z := 53.
Definition emax : Z := 1024.

(** A number: an [int] of any size or a [float]. *)
Inductive num :=
| Int (z : Z)
| Float (f : spec_float).

(** [float(z)]: the nearest float, ties to even; too large an integer
    raises [OverflowError]. *)
Definition int_to_float (z : Z) : exn + spec_float :=
  match binary_normalize prec emax z 0 false with
  | S754_infinity _ => inl OverflowError
  | f => inr f
  end.

(** [a / b] on two [int]s: the float nearest to the exact quotient;
    [ZeroDivisionError] when [b] is 0 and [OverflowError] when the
    quotient is beyond the floats. *)
Definition int_true_divide (a b : Z) : exn + spec_float :=
  match a, b with
  | _, Z0 => inl ZeroDivisionError
  | Z0, _ => inr (S754_zero (b <? 0)%Z)
  | (Zpos ma | Zneg ma), (Zpos mb | Zneg mb) =>
      match SFdiv prec emax (S754_finite (a <? 0)%Z ma 0)
                            (S754_finite (b <? 0)%Z mb 0) with
      | S754_infinity _ => inl OverflowError
      | f => inr f
      end
  end.

(** [x * k] for an [int] [k]. *)
Definition num_mul_int (x : num) (k : Z) : exn + num :=
  match x with
  | Int z => inr (Int (z * k))
  | Float f =>
      match int_to_float k with
      | inl e => inl e
      | inr fk => inr (Float (SFmul prec emax f fk))
      end
  end.

(** [x - y] *)
Definition num_sub (x y : num) : exn + num :=
  match x, y with
  | Int a, Int b => inr (Int (a - b))
  | Float f, Float g => inr (Float (SFsub prec emax f g))
  | Int a, Float g =>
      match int_to_float a with
      | inl e => inl e
      | inr f => inr (Float (SFsub prec emax f g))
      end
  | Float f, Int b =>
      match int_to_float b with
      | inl e => inl e
      | inr g => inr (Float (SFsub prec emax f g))
      end
  end.

(** The value of a number on the extended line: [m * 2^e], or an
    infinity; a NaN has none. *)
Inductive ext := NegInf | Fin (m e : Z) | PosInf.

Definition num_value (x : num) : option ext :=
  match x with
  | Int z => Some (Fin z 0)
  | Float (S754_zero _) => Some (Fin 0 0)
  | Float (S754_finite s m e) => Some (Fin (cond_Zopp s (Zpos m)) e)
  | Float (S754_infinity s) => Some (if s then NegInf else PosInf)
  | Float S754_nan => None
  end.

Definition ext_compare (a b : ext) : comparison :=
  match a, b with
  | NegInf, NegInf => Eq
  | NegInf, _ => Lt
  | _, NegInf => Gt
  | PosInf, PosInf => Eq
  | PosInf, _ => Gt
  | _, PosInf => Lt
  | Fin m1 e1, Fin m2 e2 =>
      let e := Z.min e1 e2 in
      (m1 * 2 ^ (e1 - e) ?= m2 * 2 ^ (e2 - e))%Z
  end.

(** Python compares an [int] and a [float] by their exact values; any
    comparison with a NaN is false. *)
Definition num_compare (x y : num) : option comparison :=
  match num_value x, num_value y with
  | Some a, Some b => Some (ext_compare a b)
  | _, _ => None
  end.

(** [x <= y] *)
Definition num_le (x y : num) : bool :=
  match num_compare x y with
  | Some (Lt | Eq) => true
  | _ => false
  end.

(** [x >= y] *)
Definition num_ge (x y : num) : bool :=
  match num_compare x y with
  | Some (Gt | Eq) => true
  | _ => false
  end.

(** The float literal [4.5]. *)
Definition float_4_5 : spec_float := binary_normalize prec emax 9 (-1) false.

End PyNum.


(** ** Python formatting of numbers *)

Module PyFormat.

Import PyNum.

Fixpoint uint_digits (u : Decimal.uint) : str :=
  match u with
  | Decimal.Nil => []
  | Decimal.D0 u => 48%N :: uint_digits u
  | Decimal.D1 u => 49%N :: uint_digits u
  | Decimal.D2 u => 50%N :: uint_digits u
  | Decimal.D3 u => 51%N :: uint_digits u
  | Decimal.D4 u => 52%N :: uint_digits u
  | Decimal.D5 u => 53%N :: uint_digits u
  | Decimal.D6 u => 54%N :: uint_digits u
  | Decimal.D7 u => 55%N :: uint_digits u
  | Decimal.D8 u => 56%N :: uint_digits u
  | Decimal.D9 u => 57%N :: uint_digits u
  end.

(** The decimal digits of a natural number. *)
Definition decimal (n : N) : str := uint_digits (N.to_uint n).

(** [str(z)] *)
Definition str_int (z : Z) : str :=
  (if (z <? 0)%Z then lit "-" else []) ++ decimal (Z.abs_N z).

(** Commas between groups of three digits, on the digits in reverse. *)
Fixpoint group3 (rev_digits : str) : str :=
  match rev_digits with
  | a :: b :: c :: ((_ :: _) as more) => a :: b :: c :: 44%N :: group3 more
  | _ => rev_digits
  end.

(** [f"{z:,}"] *)
Definition format_comma (z : Z) : str :=
  (if (z <? 0)%Z then lit "-" else [])
    ++ rev (group3 (rev (decimal (Z.abs_N z)))).

(** [n / d] rounded to the nearest integer, ties to even, for [0 <= n]
    and [0 < d]. *)
Definition div_half_even (n d : Z) : Z :=
  let '(q, r) := Z.div_eucl n d in
  match (2 * r ?= d)%Z with
  | Lt => q
  | Gt => (q + 1)%Z
  | Eq => if Z.even q then q else (q + 1)%Z
  end.

(** [m * 2^e * 10^digits] rounded to the nearest integer, ties to even. *)
Definition scaled (m : positive) (e : Z) (digits : nat) : Z :=
  if (0 <=? e)%Z then (Zpos m * 2 ^ e * 10 ^ Z.of_nat digits)%Z
  else div_half_even (Zpos m * 10 ^ Z.of_nat digits) (2 ^ (- e)).

(** [n / 10^digits] written with [digits] digits after the point. *)
Definition fixed_point (n : Z) (digits : nat) : str :=
  let p := (10 ^ Z.of_nat digits)%Z in
  let frac := decimal (Z.to_N (n mod p)) in
  decimal (Z.to_N (n / p))
    ++ match digits with
       | O => []
       | S _ => lit "." ++ repeat 48%N (digits - length frac) ++ frac
       end.

Definition sign_of (negative plus : bool) : str :=
  if negative then lit "-" else if plus then lit "+" else [].

(** [f"{f:.<digits>f}"] and, with [plus], [f"{f:+.<digits>f}"] for a
    float: the decimal nearest to the exact value of [f]. *)
Definition format_float (plus : bool) (digits : nat) (f : spec_float) : str :=
  match f with
  | S754_nan => sign_of false plus ++ lit "nan"
  | S754_infinity s => sign_of s plus ++ lit "inf"
  | S754_zero s => sign_of s plus ++ fixed_point 0 digits
  | S754_finite s m e =>
      sign_of s plus ++ fixed_point (scaled m e digits) digits
  end.

(** The same formats on a number; an [int] is converted to a float
    first. *)
Definition format_f (plus : bool) (digits : nat) (x : num) : exn + str :=
  match x with
  | Float f => inr (format_float plus digits f)
  | Int z =>
      match int_to_float z with
      | inl e => inl e
      | inr f => inr (format_float plus digits f)
      end
  end.

End PyFormat.

(** ** fix-syntax.py *)

Module FixSyntax.

Definition NL : char := 10%N.
Definition open_marker : str := lit "/*".
Definition close_marker : str := lit "*/".
Definition line_marker : str := lit "// ".
Definition banner : str := lit "// DISABLED: Implementation pending".

(** Body of the [for line in lines] loop of [replace_block]: the string
    appended to [fixed_lines] for [line]. *)
Definition fixed_line (line : str) : str :=
  if truthy (strip line) then
    let stripped := lstrip line in
    if truthy stripped then
      let indent := slice line 0 (length line - length stripped) in
      indent ++ line_marker ++ stripped
    else line
  else line.

(** [replace_block], applied to the text of group 1 of the match. *)
Definition replace_block (comment_content : str) : str :=
  let lines := split NL comment_content in
  let fixed_lines :=
    fold_left (fun acc line => acc ++ [fixed_line line]) lines [] in
  let fixed_lines :=
    match fixed_lines with
    | [] => fixed_lines
    | first_line :: _ =>
        let indent :=
          slice first_line 0
                (length first_line - length (lstrip first_line)) in
        (indent ++ banner) :: fixed_lines
    end in
  join [NL] fixed_lines.

(** The inner [while j < len(content) - 1 and depth > 0] loop; returns
    the final [(j, depth)].  Every iteration advances [j], so
    [len(content)] iterations are enough (see [inner_while_fuel]). *)
Fixpoint inner_while (fuel : nat) (content : str) (j depth : nat)
  : nat * nat :=
  match fuel with
  | O => (j, depth)
  | S fuel' =>
      if (Z.of_nat j <? Z.of_nat (length content) - 1)%Z && (0 <? depth)
      then
        if str_eqb (slice content j (j + 2)) open_marker then
          inner_while fuel' content (j + 2) (depth + 1)
        else if str_eqb (slice content j (j + 2)) close_marker then
          inner_while fuel' content (j + 2) (depth - 1)
        else
          inner_while fuel' content (j + 1) depth
      else (j, depth)
  end.

(** The outer [while i < len(content)] loop, from the state
    [(i, result)]; returns the final [result]. *)
Fixpoint outer_while (fuel : nat) (content : str) (i : nat) (result : str)
  : str :=
  match fuel with
  | O => result
  | S fuel' =>
      if i <? length content then
        if (Z.of_nat i <? Z.of_nat (length content) - 1)%Z
           && str_eqb (slice content i (i + 2)) open_marker
        then
          let '(j, depth) := inner_while (length content) content (i + 2) 1 in
          if depth =? 0 then
            let comment_content := slice content (i + 2) (j - 2) in
            let fixed_comment := replace_block comment_content in
            outer_while fuel' content j (result ++ fixed_comment)
          else
            outer_while fuel' content (i + 1) (result ++ [index content i])
        else
          outer_while fuel' content (i + 1) (result ++ [index content i])
      else result
  end.

Definition fix_multiline_comments (content : str) : str :=
  outer_while (length content) content 0 [].

(** [re.match(r'^(/\*\*.*?\*/)', content, re.DOTALL)]: group 1 when the
    pattern matches.  The pattern is anchored at offset 0, wants the three
    characters [/**] there, and, its [.*?] being lazy and matching every
    character under [DOTALL], ends at the first [*/] that begins at
    offset 3 or later. *)
Definition header_match (content : str) : option str :=
  if startswith (lit "/**") content then
    match find close_marker (skipn 3 content) with
    | Some k => Some (slice content 0 (3 + k + 2))
    | None => None
    end
  else None.

(** The text [fix_file] writes back for a file whose text is [content]
    (the value of its variable [fixed_content]). *)
Definition fixed_content (content : str) : str :=
  match header_match content with
  | Some header =>
      let rest_content := skipn (length header) content in
      header ++ fix_multiline_comments rest_content
  | None => fix_multiline_comments content
  end.

(** *** The files, [fix_file] and [main] *)

(** What is at a path: nothing ([open] raises [error]), a text file with
    the text [f.read()] returns, or something that exists and that [open]
    or [read] rejects with [error].  A text file that was read can be
    written. *)
Inductive file :=
| Missing (error : str)
| TextFile (content : str)
| Broken (error : str).

Definition files : Type := str -> file.

(** [os.path.exists(p)] *)
Definition file_exists (fs : files) (p : str) : bool :=
  match fs p with
  | Missing _ => false
  | _ => true
  end.

(** The files after [content] was written to [filepath]. *)
Definition write (fs : files) (filepath content : str) : files :=
  fun p => if str_eqb p filepath then TextFile content else fs p.

(** [fix_file(filepath)]: the lines printed, the files afterwards and
    the value returned. *)
Definition fix_file (filepath : str) (fs : files)
  : list str * files * bool :=
  let fixing := lit "Fixing " ++ filepath ++ lit "..." in
  match fs filepath with
  | TextFile content =>
      ([fixing; lit "Fixed " ++ filepath],
       write fs filepath (fixed_content content), true)
  | Missing e | Broken e =>
      ([fixing; lit "Error fixing " ++ filepath ++ lit ": " ++ e],
       fs, false)
  end.

Definition files_to_fix : list str :=
  [ lit "cypress/e2e/authentication.cy.ts";
    lit "cypress/e2e/user-journey.cy.ts";
    lit "tests/accessibility/wcag.test.ts" ].

(** The body of the [for filepath in files_to_fix] loop of [main], on
    the lines printed so far, the files and [success_count]. *)
Definition main_body (state : list str * files * nat) (filepath : str)
  : list str * files * nat :=
  let '(out, fs, success_count) := state in
  if file_exists fs filepath then
    let '(printed, fs', fixed) := fix_file filepath fs in
    (out ++ printed, fs',
     if fixed then success_count + 1 else success_count)
  else
    (out ++ [lit "File not found: " ++ filepath], fs, success_count).

(** [main()]: the lines printed and the files afterwards. *)
Definition main (fs : files) : list str * files :=
  let '(out, fs', success_count) :=
    fold_left main_body files_to_fix ([], fs, 0) in
  (out ++ [NL :: lit "Fixed "
              ++ PyFormat.str_int (Z.of_nat success_count)
              ++ lit "/"
              ++ PyFormat.str_int (Z.of_nat (length files_to_fix))
              ++ lit " files"],
   fs').

End FixSyntax.

Import FixSyntax.

(** The leading whitespace of a line, as [replace_block] cuts it:
    [line[:len(line) - len(line.lstrip())]]. *)
Definition indent_of (line : str) : str :=
  slice line 0 (length line - length (lstrip line)).

(** ** The loops of [fix_multiline_comments] on the unread suffix

    Both loops only ever read [content] from their index on, so they can be
    described on the suffix [content[j:]] by structural recursion.  These
    are derived views; [inner_while_scan] and [outer_while_rewrite] relate
    them to the loops above. *)

Module Suffix.

(** The inner loop started at depth [depth] on the suffix [s]: how many
    characters it consumes and the depth it stops at. *)
Fixpoint scan (s : str) (depth : nat) {struct s} : nat * nat :=
  match depth, s with
  | S d, a :: ((b :: t) as s') =>
      if str_eqb [a; b] open_marker then
        let '(k, d') := scan t (S (S d)) in (2 + k, d')
      else if str_eqb [a; b] close_marker then
        let '(k, d') := scan t d in (2 + k, d')
      else
        let '(k, d') := scan s' (S d) in (1 + k, d')
  | _, _ => (0, depth)
  end.

(** The outer loop on the suffix [s]: the text it appends to [result]. *)
Fixpoint rewrite (fuel : nat) (s : str) : str :=
  match fuel with
  | O => []
  | S fuel' =>
      match s with
      | [] => []
      | c :: s' =>
          if startswith open_marker s then
            let '(k, depth) := scan (skipn 2 s) 1 in
            if depth =? 0 then
              replace_block (firstn (k - 2) (skipn 2 s))
                ++ rewrite fuel' (skipn (2 + k) s)
            else c :: rewrite fuel' s'
          else c :: rewrite fuel' s'
      end
  end.

End Suffix.

Import Suffix.

(** ** The specification's data model

    These definitions follow the words of the specification (its sections
    3 and 4.1), not the code; the theorems below compare the two. *)

Module Spec.

Definition header_open : str := lit "/**".

(** Nesting inside a region.  [closes depth body interior rest]: read
    from nesting depth [depth], where an open marker adds one to the
    depth, a close marker takes one off and any other character is
    skipped, the text [body] first comes back to depth zero at the close
    marker that follows [interior], and [rest] is what is left after that
    close marker. *)
Inductive closes : nat -> str -> str -> str -> Prop :=
| closes_open depth body interior rest :
    closes (S (S depth)) body interior rest ->
    closes (S depth) (open_marker ++ body) (open_marker ++ interior) rest
| closes_final rest :
    closes 1 (close_marker ++ rest) [] rest
| closes_close depth body interior rest :
    closes (S depth) body interior rest ->
    closes (S (S depth)) (close_marker ++ body) (close_marker ++ interior)
           rest
| closes_skip depth c body interior rest :
    startswith open_marker (c :: body) = false ->
    startswith close_marker (c :: body) = false ->
    closes (S depth) body interior rest ->
    closes (S depth) (c :: body) (c :: interior) rest.

(** An open marker followed by [body] is unterminated when the depth
    never comes back to zero. *)
Definition unterminated (body : str) : Prop :=
  forall interior rest, ~ closes 1 body interior rest.

(** The pieces a scanned text falls into: a character copied as it is,
    or a well-formed comment region with its interior. *)
Inductive piece :=
| Text (c : char)
| Comment (interior : str).

(** The text a piece stands for in the input. *)
Definition source_of (p : piece) : str :=
  match p with
  | Text c => [c]
  | Comment interior => open_marker ++ interior ++ close_marker
  end.

(** The text a piece becomes in the output; [rewritten] is the
    line-comment replacement of a region's interior. *)
Definition output_of (rewritten : str -> str) (p : piece) : str :=
  match p with
  | Text c => [c]
  | Comment interior => rewritten interior
  end.

(** Left-to-right discovery of the regions of a text: at an open marker
    whose depth comes back to zero the region is a piece and the scan
    resumes after its close marker; at an unterminated open marker the
    marker's first character is a piece and the scan resumes one position
    later; any other character is a piece. *)
Inductive regions : str -> list piece -> Prop :=
| regions_end : regions [] []
| regions_comment body interior rest ps :
    closes 1 body interior rest ->
    regions rest ps ->
    regions (open_marker ++ body) (Comment interior :: ps)
| regions_unterminated body ps :
    unterminated body ->
    regions (42%N :: body) ps ->
    regions (open_marker ++ body) (Text 47%N :: ps)
| regions_text c s ps :
    startswith open_marker (c :: s) = false ->
    regions s ps ->
    regions (c :: s) (Text c :: ps).


End Spec.

Import Spec.

(** ** scripts/compare-duplication-reports.py *)

Module CompareReports.

Import PyNum PyFormat.

(** *** Errors and output *)

(** A computation that may raise. *)
Definition result (A : Type) : Type := (exn + A)%type.

Definition bind {A B : Type} (m : result A) (k : A -> result B) : result B :=
  match m with
  | inl e => inl e
  | inr a => k a
  end.

(** A computation that prints lines and may raise: the lines printed so
    far, and the exception or the value. *)
Definition io (A : Type) : Type := (list (list N) * result A)%type.

Definition io_bind {A B : Type} (m : io A) (k : A -> io B) : io B :=
  match m with
  | (out, inl e) => (out, inl e)
  | (out, inr a) => let '(out', r) := k a in (out ++ out', r)
  end.

(** [print(line)] *)
Definition print (line : str) : io unit := ([line], inr tt).

(** An expression evaluated inside a printing computation. *)
Definition eval {A : Type} (m : result A) : io A := ([], m).

Declare Scope result_scope.
Declare Scope io_scope.
Notation "x <- m ;; k" := (bind m (fun x => k))
  (at level 61, m at next level, right associativity) : result_scope.
Notation "x <- m ;; k" := (io_bind m (fun x => k))
  (at level 61, m at next level, right associativity) : io_scope.
Notation "m ;; k" := (io_bind m (fun _ => k))
  (at level 61, right associativity) : io_scope.

(** *** The jscpd report *)

(** The [total] object of a format; a key may be absent.  The counts of
    a report are integers. *)
Record total_data := {
  lines : option Z;
  tokens : option Z;
  duplicatedLines : option Z;
  duplicatedTokens : option Z;
  clones : option Z
}.

(** The object of one format; its [total] key may be absent. *)
Record format_data := { total : option total_data }.

(** [report['statistics']['formats']], in the order of [.items()]. *)
Definition report : Type := list (str * format_data).

(** [d.get(key, default)] *)
Definition get (field : option Z) (default : Z) : Z :=
  match field with
  | Some v => v
  | None => default
  end.

(** The dictionary [extract_metrics] returns. *)
Record metrics := {
  total_lines : Z;
  total_tokens : Z;
  duplicated_lines : Z;
  duplicated_tokens : Z;
  total_clones : Z;
  line_duplication_pct : num;
  token_duplication_pct : num
}.

(** The body of the [for] loop, on the five running totals
    [(total_lines, total_tokens, total_dup_lines, total_dup_tokens,
    total_clones)]. *)
Definition for_body (totals : Z * Z * Z * Z * Z) (item : str * format_data)
  : Z * Z * Z * Z * Z :=
  let '(total_lines, total_tokens, total_dup_lines, total_dup_tokens,
        total_clones) := totals in
  let format_data := snd item in
  match total format_data with
  | Some total_data =>
      ((total_lines + get (lines total_data) 0)%Z,
       (total_tokens + get (tokens total_data) 0)%Z,
       (total_dup_lines + get (duplicatedLines total_data) 0)%Z,
       (total_dup_tokens + get (duplicatedTokens total_data) 0)%Z,
       (total_clones + get (clones total_data) 0)%Z)
  | None => totals
  end.

Local Open Scope result_scope.

Definition extract_metrics (report : report) : result metrics :=
  let '(total_lines, total_tokens, total_dup_lines, total_dup_tokens,
        total_clones) := fold_left for_body report (0, 0, 0, 0, 0)%Z in
  line_pct <-
    (if (0 <? total_lines)%Z
     then q <- int_true_divide total_dup_lines total_lines ;;
          num_mul_int (Float q) 100
     else inr (Int 0)) ;;
  token_pct <-
    (if (0 <? total_tokens)%Z
     then q <- int_true_divide total_dup_tokens total_tokens ;;
          num_mul_int (Float q) 100
     else inr (Int 0)) ;;
  inr {| total_lines := total_lines;
         total_tokens := total_tokens;
         duplicated_lines := total_dup_lines;
         duplicated_tokens := total_dup_tokens;
         total_clones := total_clones;
         line_duplication_pct := line_pct;
         token_duplication_pct := token_pct |}.

Local Close Scope result_scope.

(** *** The comparison *)

(** ["=" * 80] *)
Definition rule : str := repeat 61%N 80.

(** The characters of the messages outside ASCII. *)
Definition arrow : str := [8594%N].
Definition check_mark : str := [10003%N].
Definition at_most : str := [8804%N].
Definition at_least : str := [8805%N].
Definition party : str := [127881%N].
Definition warning : str := [9888%N; 65039%N].

(** ['PASS' if passed else 'FAIL'] *)
Definition pass_or_fail (passed : bool) : str :=
  if passed then lit "PASS" else lit "FAIL".

(** The thresholds; [str(target_token_pct)] is [4.5]. *)
Definition target_token_pct : num := Float float_4_5.
Definition target_token_pct_str : str := lit "4.5".
Definition target_clones : Z := 100.

Local Open Scope io_scope.

Definition compare_metrics (baseline final : metrics) : io unit :=
  print rule ;;
  print (lit "CODE DUPLICATION REDUCTION ANALYSIS") ;;
  print rule ;;
  print [] ;;

  print (lit "BASELINE METRICS:") ;;
  print (lit "  Total Lines: " ++ format_comma (total_lines baseline)) ;;
  print (lit "  Total Tokens: " ++ format_comma (total_tokens baseline)) ;;
  pct <- eval (format_f false 2 (line_duplication_pct baseline)) ;;
  print (lit "  Duplicated Lines: "
           ++ format_comma (duplicated_lines baseline)
           ++ lit " (" ++ pct ++ lit "%)") ;;
  pct <- eval (format_f false 2 (token_duplication_pct baseline)) ;;
  print (lit "  Duplicated Tokens: "
           ++ format_comma (duplicated_tokens baseline)
           ++ lit " (" ++ pct ++ lit "%)") ;;
  print (lit "  Clone Blocks: " ++ str_int (total_clones baseline)) ;;
  print [] ;;

  print (lit "FINAL METRICS:") ;;
  print (lit "  Total Lines: " ++ format_comma (total_lines final)) ;;
  print (lit "  Total Tokens: " ++ format_comma (total_tokens final)) ;;
  pct <- eval (format_f false 2 (line_duplication_pct final)) ;;
  print (lit "  Duplicated Lines: "
           ++ format_comma (duplicated_lines final)
           ++ lit " (" ++ pct ++ lit "%)") ;;
  pct <- eval (format_f false 2 (token_duplication_pct final)) ;;
  print (lit "  Duplicated Tokens: "
           ++ format_comma (duplicated_tokens final)
           ++ lit " (" ++ pct ++ lit "%)") ;;
  print (lit "  Clone Blocks: " ++ str_int (total_clones final)) ;;
  print [] ;;

  let line_reduction :=
    (duplicated_lines baseline - duplicated_lines final)%Z in
  let token_reduction :=
    (duplicated_tokens baseline - duplicated_tokens final)%Z in
  let clone_reduction :=
    (total_clones baseline - total_clones final)%Z in

  line_reduction_pct <- eval
    (if (0 <? duplicated_lines baseline)%Z
     then bind (int_true_divide line_reduction (duplicated_lines baseline))
            (fun q => num_mul_int (Float q) 100)
     else inr (Int 0)) ;;
  token_reduction_pct <- eval
    (if (0 <? duplicated_tokens baseline)%Z
     then bind (int_true_divide token_reduction (duplicated_tokens baseline))
            (fun q => num_mul_int (Float q) 100)
     else inr (Int 0)) ;;
  clone_reduction_pct <- eval
    (if (0 <? total_clones baseline)%Z
     then bind (int_true_divide clone_reduction (total_clones baseline))
            (fun q => num_mul_int (Float q) 100)
     else inr (Int 0)) ;;

  line_pct_change <- eval
    (num_sub (line_duplication_pct baseline) (line_duplication_pct final)) ;;
  token_pct_change <- eval
    (num_sub (token_duplication_pct baseline) (token_duplication_pct final)) ;;

  print rule ;;
  print (lit "REDUCTION SUMMARY:") ;;
  pct <- eval (format_f true 1 line_reduction_pct) ;;
  print (lit "  Duplicated Lines: " ++ format_comma line_reduction
           ++ lit " fewer (" ++ pct ++ lit "%)") ;;
  pct <- eval (format_f true 1 token_reduction_pct) ;;
  print (lit "  Duplicated Tokens: " ++ format_comma token_reduction
           ++ lit " fewer (" ++ pct ++ lit "%)") ;;
  pct <- eval (format_f true 1 clone_reduction_pct) ;;
  print (lit "  Clone Blocks: " ++ format_comma clone_reduction
           ++ lit " fewer (" ++ pct ++ lit "%)") ;;
  print [] ;;
  before <- eval (format_f false 2 (line_duplication_pct baseline)) ;;
  after <- eval (format_f false 2 (line_duplication_pct final)) ;;
  change <- eval (format_f true 2 line_pct_change) ;;
  print (lit "  Line Duplication %: " ++ before ++ lit "% " ++ arrow
           ++ lit " " ++ after ++ lit "% (" ++ change ++ lit " pts)") ;;
  before <- eval (format_f false 2 (token_duplication_pct baseline)) ;;
  after <- eval (format_f false 2 (token_duplication_pct final)) ;;
  change <- eval (format_f true 2 token_pct_change) ;;
  print (lit "  Token Duplication %: " ++ before ++ lit "% " ++ arrow
           ++ lit " " ++ after ++ lit "% (" ++ change ++ lit " pts)") ;;
  print [] ;;

  print rule ;;
  print (lit "SUCCESS CRITERIA:") ;;
  print [] ;;

  let token_pct_pass := num_le (token_duplication_pct final) target_token_pct in
  let clones_pass := num_le (Int (total_clones final)) (Int target_clones) in
  let reduction_pass := num_ge token_reduction_pct (Int 40) in

  pct <- eval (format_f false 2 (token_duplication_pct final)) ;;
  print (lit "  " ++ check_mark ++ lit " Token Duplication " ++ at_most
           ++ lit " " ++ target_token_pct_str ++ lit "%: "
           ++ pass_or_fail token_pct_pass ++ lit " (" ++ pct ++ lit "%)") ;;
  print (lit "  " ++ check_mark ++ lit " Clone Blocks " ++ at_most
           ++ lit " " ++ str_int target_clones ++ lit ": "
           ++ pass_or_fail clones_pass
           ++ lit " (" ++ str_int (total_clones final) ++ lit ")") ;;
  pct <- eval (format_f false 1 token_reduction_pct) ;;
  print (lit "  " ++ check_mark ++ lit " Reduction " ++ at_least
           ++ lit " 40%: " ++ pass_or_fail reduction_pass
           ++ lit " (" ++ pct ++ lit "%)") ;;
  print [] ;;

  let all_pass := token_pct_pass && clones_pass && reduction_pass in

  (if all_pass
   then print (party ++ lit " ALL SUCCESS CRITERIA MET! " ++ party)
   else print
          (warning
             ++ lit "  Some criteria not met. Further refactoring needed.")) ;;

  print rule.

(** The last steps of [main], from the two loaded reports on: both are
    read into metrics, and the metrics are compared. *)
Definition compare_reports (baseline_report final_report : report)
  : io unit :=
  baseline_metrics <- eval (extract_metrics baseline_report) ;;
  final_metrics <- eval (extract_metrics final_report) ;;
  compare_metrics baseline_metrics final_metrics.

Local Close Scope io_scope.

(** *** The files and [main] *)

(** What is at a path: nothing, a jscpd report (a JSON document with the
    keys [extract_metrics] reads and integer counts), or something that
    exists and that [open] or [json.load] rejects. *)
Inductive file :=
| Missing
| Jscpd (r : report)
| Unloadable.

Definition files : Type := str -> file.

(** [Path(p).exists()] *)
Definition file_exists (fs : files) (p : str) : bool :=
  match fs p with
  | Missing => false
  | _ => true
  end.

(** [load_report(filepath)]; [None] when it raises. *)
Definition load_report (fs : files) (filepath : str) : option report :=
  match fs filepath with
  | Jscpd r => Some r
  | _ => None
  end.

(** How a run ends: [main] returns, [sys.exit(code)], an arithmetic
    exception nothing catches, or the exception of a failed load. *)
Inductive status :=
| Returned
| Exited (code : Z)
| Raised (e : exn)
| LoadFailed.

Definition usage : str :=
  lit "Usage: python3 compare-duplication-reports.py "
    ++ lit "<baseline.json> <final.json>".

(** [main()], for [sys.argv] and the files: the lines printed and how the
    run ends. *)
Definition main (argv : list str) (fs : files) : list str * status :=
  if negb (length argv =? 3) then ([usage], Exited 1)
  else
    let baseline_path := nth 1 argv [] in
    let final_path := nth 2 argv [] in
    if negb (file_exists fs baseline_path) then
      ([lit "Error: Baseline report not found: " ++ baseline_path], Exited 1)
    else if negb (file_exists fs final_path) then
      ([lit "Error: Final report not found: " ++ final_path], Exited 1)
    else
      match load_report fs baseline_path with
      | None => ([], LoadFailed)
      | Some baseline_report =>
          match load_report fs final_path with
          | None => ([], LoadFailed)
          | Some final_report =>
              match compare_reports baseline_report final_report with
              | (out, inl e) => (out, Raised e)
              | (out, inr _) => (out, Returned)
              end
          end
      end.

End CompareReports.

(** ** The specification's words about the metrics *)

Module MetricsSpec.

Import PyNum PyFormat CompareReports.

(** The float [100.0]. *)
Definition float_100 : spec_float := S754_finite false 7036874417766400 (-46).


(** A percentage as [extract_metrics] produces it: a float, or the
    integer 0. *)
Definition pct_value (x : num) : Prop :=
  match x with
  | Float _ => True
  | Int z => z = 0%Z
  end.

(** Metrics whose counts are below [2^999] in absolute value and whose
    percentages are percentages. *)
Definition in_range (m : metrics) : Prop :=
  (Z.abs (duplicated_lines m) < 2 ^ 999)%Z /\
  (Z.abs (duplicated_tokens m) < 2 ^ 999)%Z /\
  (Z.abs (total_clones m) < 2 ^ 999)%Z /\
  pct_value (line_duplication_pct m) /\
  pct_value (token_duplication_pct m).

(** One line of the success criteria: the check mark, the name of the
    check, [PASS] or [FAIL], and the value in brackets. *)
Definition criterion (name : str) (passed : bool) (value : str) : str :=
  lit "  " ++ check_mark ++ lit " " ++ name ++ lit ": "
    ++ pass_or_fail passed ++ lit " (" ++ value ++ lit ")".

Definition token_duplication_check : str :=
  lit "Token Duplication " ++ at_most ++ lit " 4.5%".
Definition clone_blocks_check : str :=
  lit "Clone Blocks " ++ at_most ++ lit " 100".
Definition reduction_check : str :=
  lit "Reduction " ++ at_least ++ lit " 40%".

(** The closing message. *)
Definition verdict (all_pass : bool) : str :=
  if all_pass
  then party ++ lit " ALL SUCCESS CRITERIA MET! " ++ party
  else warning ++ lit "  Some criteria not met. Further refactoring needed.".

(** The reports of the end-to-end example: 1000 duplicated tokens of
    10000, then 400 of 10000. *)
Definition tokens_only (all duplicated : Z) : report :=
  [(lit "typescript",
    {| total := Some {| lines := None; tokens := Some all;
                        duplicatedLines := None;
                        duplicatedTokens := Some duplicated;
                        clones := None |} |})].

End MetricsSpec.

(** ** Sample data *)

Module Samples.

Import PyNum CompareReports MetricsSpec.

Definition sample_report : report :=
  [(lit "typescript",
    {| total := Some {| lines := Some 200%Z; tokens := Some 0%Z;
                        duplicatedLines := Some 50%Z;
                        duplicatedTokens := Some 0%Z;
                        clones := Some 3%Z |} |})].




(** Two reports on disk. *)
Definition sample_files : files :=
  fun p =>
    if str_eqb p (lit "before.json") then Jscpd (tokens_only 10000 1000)
    else if str_eqb p (lit "after.json") then Jscpd (tokens_only 10000 400)
    else Missing.

End Samples.

(** ** Notions used to state further properties of the scripts *)

Module Expected.

(** A piece that is a well-formed comment region. *)
Definition is_region (p : piece) : bool :=
  match p with
  | Comment _ => true
  | Text _ => false
  end.

(** What [fix-syntax.py] leaves at a path it fixes: a text file is
    rewritten, anything else stays as it is. *)
Definition rewritten (f : FixSyntax.file) : FixSyntax.file :=
  match f with
  | FixSyntax.TextFile content => FixSyntax.TextFile (fixed_content content)
  | other => other
  end.


(** What one format adds to the total of a count: the count of its
    [total] object, 0 when the format has no [total] or the [total] has
    no such count. *)
Definition count_of (key : CompareReports.total_data -> option Z)
    (item : str * CompareReports.format_data) : Z :=
  match CompareReports.total (snd item) with
  | Some total_data => CompareReports.get (key total_data) 0
  | None => 0
  end.

(** The sum of a count over the formats of a report. *)
Definition sum_of (key : CompareReports.total_data -> option Z)
    (report : CompareReports.report) : Z :=
  fold_right Z.add 0%Z (map (count_of key) report).

(** A count that is not negative and below [2^999]. *)
Definition moderate (n : Z) : Prop := (0 <= n < 2 ^ 999)%Z.

(** Reports whose five totals are moderate. *)
Definition plausible (report : CompareReports.report) : Prop :=
  moderate (sum_of CompareReports.lines report) /\
  moderate (sum_of CompareReports.tokens report) /\
  moderate (sum_of CompareReports.duplicatedLines report) /\
  moderate (sum_of CompareReports.duplicatedTokens report) /\
  moderate (sum_of CompareReports.clones report).



End Expected.

Import Expected.

(** ** Basic facts about strings *)

Section StrFacts.

Lemma char_eqb_eq (a b : char) : char_eqb a b = true <-> a = b.
Proof. apply N.eqb_eq. Qed.

Lemma str_eqb_eq (a b : str) : str_eqb a b = true <-> a = b.
Proof.
  revert b; induction a as [|x a IH]; intros [|y b]; simpl;
    try (split; [discriminate | congruence]); try tauto.
  rewrite andb_true_iff, char_eqb_eq, IH.
  split; [intros [-> ->]; reflexivity | intros H; injection H; auto].
Qed.


Lemma startswith_app (p s : str) : startswith p (p ++ s) = true.
Proof.
  induction p as [|x p IH]; simpl; [reflexivity|].
  rewrite IH, andb_true_r. apply N.eqb_refl.
Qed.

Lemma startswith_spec (p s : str) :
  startswith p s = true <-> exists t, s = p ++ t.
Proof.
  split.
  - revert s; induction p as [|x p IH]; intros s H; simpl in *.
    + exists s; reflexivity.
    + destruct s as [|y s]; [discriminate|].
      apply andb_true_iff in H as [Hxy H].
      apply char_eqb_eq in Hxy; subst y.
      destruct (IH _ H) as [t ->]. exists t; reflexivity.
  - intros [t ->]. apply startswith_app.
Qed.

Lemma slice_skipn (s : str) (a n : nat) :
  slice s a (a + n) = firstn n (skipn a s).
Proof. unfold slice. f_equal. lia. Qed.

Lemma skipn_cons_nth (s : str) (i : nat) :
  i < length s -> skipn i s = index s i :: skipn (S i) s.
Proof.
  revert i; induction s as [|c s IH]; intros i H; simpl in H; [lia|].
  destruct i as [|i]; [reflexivity|].
  simpl. apply IH. lia.
Qed.

(** Under the loop guard [i < len(content)] the read [content[i]] is in
    range. *)
Lemma index_in_range (s : str) (i : nat) :
  i < length s -> nth_error s i = Some (index s i).
Proof. intros H. unfold index. apply nth_error_nth'. exact H. Qed.

Lemma skipn_skipn' (s : str) (a b : nat) :
  skipn a (skipn b s) = skipn (b + a) s.
Proof.
  revert s; induction b as [|b IH]; intros s; simpl; [reflexivity|].
  destruct s as [|c s]; [now rewrite skipn_nil|]. apply IH.
Qed.

End StrFacts.

(** ** The index loops and their suffix views agree *)

Section LoopViews.

Lemma skipn_shape (content : str) (j : nat) (s : str) :
  skipn j content = s ->
  length s = length content - j /\
  forall n, skipn (j + n) content = skipn n s.
Proof.
  intros <-. split.
  - apply length_skipn.
  - intros n. symmetry. apply skipn_skipn'.
Qed.

Lemma scan_zero (s : str) : scan s 0 = (0, 0).
Proof. destruct s; reflexivity. Qed.

Lemma scan_step (a b : char) (t : str) (d : nat) :
  scan (a :: b :: t) (S d) =
    if str_eqb [a; b] open_marker then
      let '(k, d') := scan t (S (S d)) in (2 + k, d')
    else if str_eqb [a; b] close_marker then
      let '(k, d') := scan t d in (2 + k, d')
    else
      let '(k, d') := scan (b :: t) (S d) in (1 + k, d').
Proof. reflexivity. Qed.

Lemma scan_short (s : str) (depth : nat) :
  length s <= 1 -> scan s depth = (0, depth).
Proof.
  destruct s as [|a [|b t]]; simpl; intros H; try lia;
    destruct depth; reflexivity.
Qed.

Lemma inner_while_scan (fuel : nat) (content : str) :
  forall j depth,
    length content - j <= fuel ->
    inner_while fuel content j depth =
      (j + fst (scan (skipn j content) depth),
       snd (scan (skipn j content) depth)).
Proof.
  induction fuel as [|fuel IH]; intros j depth Hfuel.
  - simpl. rewrite skipn_all2 by lia.
    destruct depth; simpl; f_equal; lia.
  - simpl.
    destruct depth as [|d].
    { rewrite andb_false_r, scan_zero. simpl. f_equal. lia. }
    destruct (skipn j content) as [|a [|b t]] eqn:Hs;
      destruct (skipn_shape _ _ _ Hs) as [Hlen Hskip]; simpl in Hlen.
    + replace (Z.of_nat j <? Z.of_nat (length content) - 1)%Z with false
        by (symmetry; apply Z.ltb_ge; lia).
      simpl. f_equal. lia.
    + replace (Z.of_nat j <? Z.of_nat (length content) - 1)%Z with false
        by (symmetry; apply Z.ltb_ge; lia).
      simpl. f_equal. lia.
    + replace (Z.of_nat j <? Z.of_nat (length content) - 1)%Z with true
        by (symmetry; apply Z.ltb_lt; lia).
      cbn [andb Nat.ltb Nat.leb].
      rewrite slice_skipn, Hs. cbn [firstn].
      rewrite scan_step.
      destruct (str_eqb [a; b] open_marker).
      * rewrite IH by lia. rewrite (Hskip 2). cbn [skipn].
        replace (S d + 1) with (S (S d)) by lia.
        destruct (scan t (S (S d))) as [k d']. simpl. f_equal. lia.
      * destruct (str_eqb [a; b] close_marker).
        -- rewrite IH by lia. rewrite (Hskip 2). cbn [skipn].
           replace (S d - 1) with d by lia.
           destruct (scan t d) as [k d']. simpl. f_equal. lia.
        -- rewrite IH by lia. rewrite (Hskip 1). cbn [skipn].
           destruct (scan (b :: t) (S d)) as [k d']. simpl. f_equal. lia.
Qed.

(** [len(content)] iterations are enough for the inner loop: more fuel
    changes nothing. *)
Lemma inner_while_fuel (fuel : nat) (content : str) (j depth : nat) :
  length content <= fuel ->
  inner_while fuel content j depth =
    inner_while (length content) content j depth.
Proof.
  intros H. rewrite !inner_while_scan by lia. reflexivity.
Qed.

(** The inner loop never consumes more than what is left. *)
Lemma scan_bound (s : str) :
  forall depth, fst (scan s depth) <= length s.
Proof.
  enough (H : forall n s, length s <= n ->
              forall depth, fst (scan s depth) <= length s)
    by (apply (H (length s)); lia).
  clear s. induction n as [|n IH]; intros s Hn depth.
  - rewrite scan_short by lia. simpl. lia.
  - destruct depth as [|d]; [rewrite scan_zero; simpl; lia|].
    destruct s as [|a [|b t]]; try (simpl; lia).
    simpl in Hn. rewrite scan_step.
    destruct (str_eqb [a; b] open_marker).
    + specialize (IH t ltac:(lia) (S (S d))).
      destruct (scan t (S (S d))); simpl in *; lia.
    + destruct (str_eqb [a; b] close_marker).
      * specialize (IH t ltac:(lia) d).
        destruct (scan t d); simpl in *; lia.
      * specialize (IH (b :: t) ltac:(simpl; lia) (S d)).
        destruct (scan (b :: t) (S d)); simpl in *; lia.
Qed.

Lemma open_at_index (content : str) (i : nat) :
  (Z.of_nat i <? Z.of_nat (length content) - 1)%Z
    && str_eqb (slice content i (i + 2)) open_marker
  = startswith open_marker (skipn i content).
Proof.
  destruct (skipn i content) as [|a [|b t]] eqn:Hs;
    destruct (skipn_shape _ _ _ Hs) as [Hlen _]; simpl in Hlen.
  - replace (Z.of_nat i <? Z.of_nat (length content) - 1)%Z with false
      by (symmetry; apply Z.ltb_ge; lia).
    reflexivity.
  - replace (Z.of_nat i <? Z.of_nat (length content) - 1)%Z with false
      by (symmetry; apply Z.ltb_ge; lia).
    simpl. now rewrite andb_false_r.
  - replace (Z.of_nat i <? Z.of_nat (length content) - 1)%Z with true
      by (symmetry; apply Z.ltb_lt; lia).
    rewrite slice_skipn, Hs. reflexivity.
Qed.

Lemma outer_while_rewrite (fuel : nat) (content : str) :
  forall i result,
    outer_while fuel content i result =
      result ++ rewrite fuel (skipn i content).
Proof.
  induction fuel as [|fuel IH]; intros i result.
  - simpl. now rewrite app_nil_r.
  - cbn [outer_while rewrite].
    destruct (Nat.ltb_spec i (length content)) as [Hi|Hi].
    2:{ rewrite skipn_all2 by lia. now rewrite app_nil_r. }
    rewrite open_at_index, inner_while_scan by lia.
    pose proof (skipn_cons_nth _ _ Hi) as Hs.
    assert (H2 : skipn (i + 2) content = skipn 2 (skipn i content))
      by (now rewrite skipn_skipn').
    unfold slice at 1. rewrite H2.
    destruct (skipn i content) as [|c s'] eqn:Hc; [discriminate|].
    assert (Hc' : index content i = c) by congruence.
    assert (Hs' : skipn (i + 1) content = s')
      by (replace (i + 1) with (S i) by lia; congruence).
    rewrite Hc'. clear Hs.
    destruct (startswith open_marker (c :: s')).
    + destruct (scan (skipn 2 (c :: s')) 1) as [k depth].
      cbn [fst snd].
      destruct (depth =? 0).
      * rewrite IH, <- app_assoc. f_equal. f_equal.
        -- f_equal. f_equal. lia.
        -- f_equal.
           replace (i + 2 + k) with (i + (2 + k)) by lia.
           now rewrite <- skipn_skipn', Hc.
      * now rewrite IH, <- app_assoc, Hs'.
    + now rewrite IH, <- app_assoc, Hs'.
Qed.

Lemma rewrite_fuel (fuel : nat) :
  forall fuel' s,
    length s <= fuel -> length s <= fuel' ->
    rewrite fuel s = rewrite fuel' s.
Proof.
  induction fuel as [|fuel IH]; intros fuel' s H H'.
  - destruct s; [|simpl in H; lia]. destruct fuel'; reflexivity.
  - destruct s as [|c s']; [destruct fuel'; reflexivity|].
    destruct fuel' as [|fuel']; [simpl in H'; lia|].
    simpl in H, H'. cbn [rewrite].
    destruct (startswith open_marker (c :: s')).
    + destruct (scan (skipn 2 (c :: s')) 1) as [k depth].
      destruct (depth =? 0).
      * f_equal. apply IH; rewrite length_skipn; simpl; lia.
      * f_equal. apply IH; lia.
    + f_equal. apply IH; lia.
Qed.

(** [len(content)] iterations are enough for the outer loop: with more
    fuel it returns the same text. *)
Lemma outer_while_fuel (fuel : nat) (content : str) :
  length content <= fuel ->
  outer_while fuel content 0 [] = fix_multiline_comments content.
Proof.
  intros H. unfold fix_multiline_comments.
  rewrite !outer_while_rewrite. simpl.
  apply rewrite_fuel; lia.
Qed.

End LoopViews.

(** ** Unfolding equations of [fix_multiline_comments] *)

Section Equations.

Lemma rewrite_step (fuel : nat) (c : char) (s' : str) :
  rewrite (S fuel) (c :: s') =
    if startswith open_marker (c :: s') then
      let '(k, depth) := scan (skipn 2 (c :: s')) 1 in
      if depth =? 0 then
        replace_block (firstn (k - 2) (skipn 2 (c :: s')))
          ++ rewrite fuel (skipn (2 + k) (c :: s'))
      else c :: rewrite fuel s'
    else c :: rewrite fuel s'.
Proof. reflexivity. Qed.

Lemma fmc_rewrite (fuel : nat) (s : str) :
  length s <= fuel -> fix_multiline_comments s = rewrite fuel s.
Proof.
  intros H. unfold fix_multiline_comments.
  rewrite outer_while_rewrite. simpl. apply rewrite_fuel; lia.
Qed.

Lemma fmc_nil : fix_multiline_comments [] = [].
Proof. reflexivity. Qed.

(** A character that does not start an open marker is copied. *)
Lemma fmc_copy (c : char) (s : str) :
  startswith open_marker (c :: s) = false ->
  fix_multiline_comments (c :: s) = c :: fix_multiline_comments s.
Proof.
  intros H.
  rewrite (fmc_rewrite (S (length s)) (c :: s)) by (simpl; lia).
  rewrite rewrite_step, H.
  now rewrite <- fmc_rewrite by lia.
Qed.

(** An open marker whose scan comes back to depth 0 after [k]
    characters: the block is replaced and the loop goes on after it. *)
Lemma fmc_closed (body : str) (k : nat) :
  scan body 1 = (k, 0) ->
  fix_multiline_comments (open_marker ++ body) =
    replace_block (firstn (k - 2) body)
      ++ fix_multiline_comments (skipn k body).
Proof.
  intros H.
  rewrite (fmc_rewrite (S (S (length body))) (open_marker ++ body)) by (simpl; lia).
  change (open_marker ++ body) with (47%N :: 42%N :: body).
  rewrite rewrite_step.
  change (startswith open_marker (47%N :: 42%N :: body)) with true.
  change (skipn 2 (47%N :: 42%N :: body)) with body.
  change (skipn (2 + k) (47%N :: 42%N :: body)) with (skipn k body).
  rewrite H. cbn [Nat.eqb].
  rewrite <- fmc_rewrite; [reflexivity|].
  rewrite length_skipn. cbn [length]. lia.
Qed.

(** An open marker whose scan ends at a positive depth: its first
    character is copied and the loop goes on one position later. *)
Lemma fmc_unclosed (body : str) :
  snd (scan body 1) <> 0 ->
  fix_multiline_comments (open_marker ++ body) =
    47%N :: fix_multiline_comments (42%N :: body).
Proof.
  intros H.
  rewrite (fmc_rewrite (S (S (length body))) (open_marker ++ body)) by (simpl; lia).
  change (open_marker ++ body) with (47%N :: 42%N :: body).
  rewrite rewrite_step.
  change (startswith open_marker (47%N :: 42%N :: body)) with true.
  change (skipn 2 (47%N :: 42%N :: body)) with body.
  destruct (scan body 1) as [k depth]. simpl in H.
  destruct depth as [|depth]; [congruence|]. cbn [Nat.eqb].
  now rewrite <- fmc_rewrite by (simpl; lia).
Qed.

End Equations.

(** ** The scanner against the specification's nesting *)

Section Nesting.

Lemma closes_positive depth body interior rest :
  closes depth body interior rest -> 0 < depth.
Proof. destruct 1; lia. Qed.

Lemma closes_app depth body interior rest :
  closes depth body interior rest ->
  body = interior ++ close_marker ++ rest.
Proof.
  induction 1; simpl; try rewrite IHcloses; reflexivity.
Qed.

Lemma marker_heads (a b : char) (t : str) :
  startswith open_marker (a :: b :: t) = str_eqb [a; b] open_marker /\
  startswith close_marker (a :: b :: t) = str_eqb [a; b] close_marker.
Proof. split; reflexivity. Qed.

(** A scan that the specification says closes is a scan the code ends
    at depth zero, just after the close marker. *)
Lemma closes_scan depth body interior rest :
  closes depth body interior rest ->
  scan body depth = (length interior + 2, 0).
Proof.
  induction 1.
  - change (open_marker ++ body) with (47%N :: 42%N :: body).
    rewrite scan_step. change (str_eqb [47%N; 42%N] open_marker) with true.
    cbn iota. rewrite IHcloses. simpl. reflexivity.
  - change (close_marker ++ rest) with (42%N :: 47%N :: rest).
    rewrite scan_step.
    change (str_eqb [42%N; 47%N] open_marker) with false.
    change (str_eqb [42%N; 47%N] close_marker) with true.
    cbn iota. rewrite scan_zero. reflexivity.
  - change (close_marker ++ body) with (42%N :: 47%N :: body).
    rewrite scan_step.
    change (str_eqb [42%N; 47%N] open_marker) with false.
    change (str_eqb [42%N; 47%N] close_marker) with true.
    cbn iota. rewrite IHcloses. simpl. reflexivity.
  - destruct body as [|b t]; [inversion H1|].
    destruct (marker_heads c b t) as [Ho Hc].
    rewrite scan_step, <- Ho, <- Hc, H, H0, IHcloses.
    simpl. reflexivity.
Qed.

(** Conversely, a scan the code ends at depth zero is one the
    specification says closes. *)
Lemma scan_closes (body : str) :
  forall depth k,
    scan body (S depth) = (k, 0) ->
    exists interior rest, closes (S depth) body interior rest.
Proof.
  enough (H : forall n body, length body <= n ->
              forall depth k, scan body (S depth) = (k, 0) ->
              exists interior rest, closes (S depth) body interior rest)
    by (apply (H (length body)); lia).
  clear body. induction n as [|n IH]; intros body Hn depth k Hscan.
  - rewrite scan_short in Hscan by lia. discriminate.
  - destruct body as [|a [|b t]]; try discriminate.
    simpl in Hn. rewrite scan_step in Hscan.
    destruct (marker_heads a b t) as [Ho Hc].
    destruct (str_eqb [a; b] open_marker) eqn:Eo.
    + apply str_eqb_eq in Eo. injection Eo as -> ->.
      destruct (scan t (S (S depth))) as [k' d'] eqn:Et.
      injection Hscan as _ ->.
      destruct (IH t ltac:(lia) _ _ Et) as (interior & rest & Hcl).
      exists (open_marker ++ interior), rest.
      now apply closes_open.
    + destruct (str_eqb [a; b] close_marker) eqn:Ec.
      * apply str_eqb_eq in Ec. injection Ec as -> ->.
        destruct depth as [|depth].
        -- exists [], t. apply closes_final.
        -- destruct (scan t (S depth)) as [k' d'] eqn:Et.
           injection Hscan as _ ->.
           destruct (IH t ltac:(lia) _ _ Et) as (interior & rest & Hcl).
           exists (close_marker ++ interior), rest.
           now apply closes_close.
      * destruct (scan (b :: t) (S depth)) as [k' d'] eqn:Et.
        injection Hscan as _ ->.
        destruct (IH (b :: t) ltac:(simpl; lia) _ _ Et)
          as (interior & rest & Hcl).
        exists (a :: interior), rest.
        apply closes_skip; congruence.
Qed.

(** What the code cuts out of [content] for a closed block is the
    interior and the rest of the specification. *)
Lemma closes_cut depth body interior rest :
  closes depth body interior rest ->
  firstn (length interior + 2 - 2) body = interior /\
  skipn (length interior + 2) body = rest.
Proof.
  intros H. rewrite (closes_app _ _ _ _ H). split.
  - replace (length interior + 2 - 2) with (length interior + 0) by lia.
    rewrite firstn_app_2. simpl. apply app_nil_r.
  - rewrite skipn_app.
    rewrite skipn_all2 by lia.
    replace (length interior + 2 - length interior) with 2 by lia.
    reflexivity.
Qed.


Lemma closes_deterministic depth body interior rest interior' rest' :
  closes depth body interior rest ->
  closes depth body interior' rest' ->
  interior = interior' /\ rest = rest'.
Proof.
  intros H H'.
  pose proof (closes_scan _ _ _ _ H) as E.
  pose proof (closes_scan _ _ _ _ H') as E'.
  assert (L : length interior = length interior') by (rewrite E in E'; injection E'; lia).
  destruct (closes_cut _ _ _ _ H) as [<- <-].
  destruct (closes_cut _ _ _ _ H') as [<- <-].
  rewrite L. split; reflexivity.
Qed.

Lemma unterminated_scan (body : str) :
  unterminated body <-> snd (scan body 1) <> 0.
Proof.
  split.
  - intros H E. destruct (scan body 1) as [k d] eqn:Es. simpl in E. subst d.
    destruct (scan_closes _ _ _ Es) as (interior & rest & Hcl).
    exact (H _ _ Hcl).
  - intros H interior rest Hcl. apply H.
    now rewrite (closes_scan _ _ _ _ Hcl).
Qed.

End Nesting.

(** ** The header match *)

Section Header.


Lemma find_cons (p : str) (c : char) (s : str) :
  find p (c :: s) =
    if startswith p (c :: s) then Some 0 else option_map S (find p s).
Proof. reflexivity. Qed.

Lemma contains_cons (p : str) (c : char) (s : str) :
  contains p (c :: s) = startswith p (c :: s) || contains p s.
Proof. reflexivity. Qed.

(** Whether a close marker starts at the head of [c :: x] depends on
    [c] and the head of [x] only. *)
Lemma close_head (c : char) (b x y : str) :
  startswith close_marker (c :: b ++ 42%N :: x) =
  startswith close_marker (c :: b ++ 42%N :: y).
Proof. destruct b; reflexivity. Qed.

Lemma find_close_first (body rest : str) :
  contains close_marker (body ++ [42%N]) = false ->
  find close_marker (body ++ close_marker ++ rest) = Some (length body).
Proof.
  induction body as [|c b IH]; intros H.
  - reflexivity.
  - rewrite <- app_comm_cons, contains_cons in H.
    apply orb_false_iff in H as [Hh Ht].
    rewrite <- app_comm_cons, find_cons.
    change (close_marker ++ rest) with (42%N :: 47%N :: rest) at 1.
    rewrite (close_head c b (47%N :: rest) []), Hh.
    now rewrite (IH Ht).
Qed.


Lemma firstn_app_exact (a b : str) (n : nat) :
  n = length a -> firstn n (a ++ b) = a.
Proof.
  intros ->. replace (length a) with (length a + 0) by lia.
  rewrite firstn_app_2. simpl. apply app_nil_r.
Qed.

Lemma skipn_app_exact (a b : str) (n : nat) :
  n = length a -> skipn n (a ++ b) = b.
Proof.
  intros ->. rewrite skipn_app, skipn_all2 by lia.
  now rewrite Nat.sub_diag.
Qed.


Lemma header_match_present (body rest : str) :
  contains close_marker (body ++ [42%N]) = false ->
  header_match (header_open ++ body ++ close_marker ++ rest) =
    Some (header_open ++ body ++ close_marker).
Proof.
  intros H. unfold header_match. fold header_open.
  rewrite startswith_app.
  change (skipn 3 (header_open ++ body ++ close_marker ++ rest))
    with (body ++ close_marker ++ rest).
  rewrite (find_close_first _ _ H). f_equal.
  unfold slice. cbn [skipn]. rewrite Nat.sub_0_r.
  replace (header_open ++ body ++ close_marker ++ rest)
    with ((header_open ++ body ++ close_marker) ++ rest)
    by (now rewrite <- !app_assoc).
  apply firstn_app_exact. rewrite !length_app. simpl. lia.
Qed.

End Header.

(** ** The rewriter against the specification *)

Section Rewriter.

Lemma startswith_open_cases (s : str) :
  startswith open_marker s = true -> exists body, s = open_marker ++ body.
Proof. apply startswith_spec. Qed.

(** The outer loop cuts any text into the pieces of the specification,
    copies the [Text] pieces and replaces the [Comment] pieces. *)
Lemma fmc_regions (s : str) :
  exists ps,
    regions s ps /\
    s = flat_map source_of ps /\
    fix_multiline_comments s = flat_map (output_of replace_block) ps.
Proof.
  enough (H : forall n s, length s <= n ->
              exists ps,
                regions s ps /\ s = flat_map source_of ps /\
                fix_multiline_comments s =
                  flat_map (output_of replace_block) ps)
    by (apply (H (length s)); lia).
  clear s. induction n as [|n IH]; intros s Hn.
  - destruct s; [|simpl in Hn; lia].
    exists []. repeat split. constructor.
  - destruct s as [|c s'].
    { exists []. repeat split. constructor. }
    simpl in Hn.
    destruct (startswith open_marker (c :: s')) eqn:Ho.
    + destruct (startswith_open_cases _ Ho) as [body E].
      rewrite E. injection E as -> ->.
      destruct (scan body 1) as [k d] eqn:Es.
      destruct d as [|d].
      * destruct (scan_closes _ _ _ Es) as (interior & rest & Hcl).
        pose proof (closes_scan _ _ _ _ Hcl) as Es'.
        rewrite Es in Es'. injection Es' as ->.
        destruct (closes_cut _ _ _ _ Hcl) as [Hi Hr].
        pose proof (closes_app _ _ _ _ Hcl) as Hb.
        destruct (IH rest) as (ps & Hreg & Hsrc & Hout).
        { apply (f_equal (@length _)) in Hb.
          rewrite !length_app in Hb. simpl in Hn. lia. }
        exists (Comment interior :: ps). split; [|split].
        -- now apply regions_comment with (rest := rest).
        -- cbn [flat_map source_of]. rewrite <- Hsrc, Hb.
           now rewrite <- !app_assoc.
        -- rewrite (fmc_closed _ _ Es), Hi, Hr, Hout. reflexivity.
      * assert (Hun : snd (scan body 1) <> 0) by (rewrite Es; discriminate).
        destruct (IH (42%N :: body)) as (ps & Hreg & Hsrc & Hout).
        { simpl in Hn |- *. lia. }
        exists (Text 47%N :: ps). split; [|split].
        -- apply regions_unterminated; [|exact Hreg].
           now apply unterminated_scan.
        -- cbn [flat_map source_of]. rewrite <- Hsrc. reflexivity.
        -- rewrite (fmc_unclosed _ Hun), Hout. reflexivity.
    + destruct (IH s') as (ps & Hreg & Hsrc & Hout); [lia|].
      exists (Text c :: ps). split; [|split].
      * now apply regions_text.
      * cbn [flat_map source_of]. now rewrite <- Hsrc.
      * rewrite (fmc_copy _ _ Ho), Hout. reflexivity.
Qed.

Lemma regions_open_inv (body : str) (ps : list piece) :
  regions (open_marker ++ body) ps ->
  (exists interior rest ps',
      closes 1 body interior rest /\ regions rest ps' /\
      ps = Comment interior :: ps')
  \/ (unterminated body /\
      exists ps', regions (42%N :: body) ps' /\ ps = Text 47%N :: ps').
Proof.
  intros H. remember (open_marker ++ body) as s eqn:E.
  destruct H as [|body' interior rest ps Hcl Hreg
                 |body' ps Hun Hreg
                 |c s ps Ho Hreg].
  - discriminate E.
  - injection E as ->. left. now exists interior, rest, ps.
  - injection E as ->. right. split; [exact Hun|]. now exists ps.
  - injection E as -> ->. discriminate Ho.
Qed.

Lemma regions_text_inv (c : char) (s : str) (ps : list piece) :
  startswith open_marker (c :: s) = false ->
  regions (c :: s) ps ->
  exists ps', regions s ps' /\ ps = Text c :: ps'.
Proof.
  intros Ho H. remember (c :: s) as t eqn:E.
  destruct H as [|body' interior rest ps Hcl Hreg
                 |body' ps Hun Hreg
                 |c' s' ps Ho' Hreg].
  - discriminate E.
  - discriminate Ho.
  - discriminate Ho.
  - injection E as -> ->. now exists ps.
Qed.

(** The cut into pieces is unique: the specification's discovery of
    regions is a function of the text. *)
Lemma regions_deterministic (s : str) (ps ps' : list piece) :
  regions s ps -> regions s ps' -> ps = ps'.
Proof.
  intros H. revert ps'.
  induction H as [|body interior rest ps Hcl Hreg IH
                  |body ps Hun Hreg IH
                  |c s ps Ho Hreg IH]; intros ps' H'.
  - inversion H'; reflexivity.
  - apply regions_open_inv in H'
      as [(interior' & rest' & ps0 & Hcl' & Hreg' & ->)
         |(Hun' & _)].
    + destruct (closes_deterministic _ _ _ _ _ _ Hcl Hcl') as [<- <-].
      f_equal. now apply IH.
    + exfalso. exact (Hun' _ _ Hcl).
  - apply regions_open_inv in H'
      as [(interior' & rest' & ps0 & Hcl' & Hreg' & ->)
         |(Hun' & ps0 & Hreg' & ->)].
    + exfalso. exact (Hun _ _ Hcl').
    + f_equal. now apply IH.
  - apply (regions_text_inv _ _ _ Ho) in H' as (ps0 & Hreg' & ->).
    f_equal. now apply IH.
Qed.

End Rewriter.

(** ** Properties of the rewrite operation *)

Section RewriteProperties.


(** C2.  For a buffer that starts with the header open marker and has a
    close marker after it, the prefix that ends at the first such close
    marker (first match, whatever open markers the header holds) is the
    header the code finds, it is a prefix of the output unchanged, and
    [fix_multiline_comments] is run on the text after it only. *)
Theorem header_preserved (body rest : str) :
  contains close_marker (body ++ [42%N]) = false ->
  header_match (header_open ++ body ++ close_marker ++ rest) =
    Some (header_open ++ body ++ close_marker) /\
  fixed_content (header_open ++ body ++ close_marker ++ rest) =
    (header_open ++ body ++ close_marker) ++ fix_multiline_comments rest.
Proof.
  intros Hno. split; [now apply header_match_present|].
  unfold fixed_content. rewrite (header_match_present _ _ Hno).
  replace (header_open ++ body ++ close_marker ++ rest)
    with ((header_open ++ body ++ close_marker) ++ rest)
    by (now rewrite <- !app_assoc).
  now rewrite skipn_app_exact.
Qed.

Lemma header_preserved_witness :
  contains close_marker (lit " a /* b " ++ [42%N]) = false /\
  fixed_content (lit "/** a /* b */ c */ x") =
    lit "/** a /* b */" ++ fix_multiline_comments (lit " c */ x").
Proof.
  split; [reflexivity|].
  apply (header_preserved (lit " a /* b ") (lit " c */ x")).
  reflexivity.
Defined.



(** C4.  At an open marker at index [i] whose depth never comes back to
    zero before the end of the buffer, the inner loop ends at a positive
    depth and one pass of the outer loop appends the single character at
    [i] and goes on at [i + 1]; the input [/* never closes] is returned as
    it is, by [fix_multiline_comments] and by the whole rewrite.  The
    loops are total functions: no error is raised. *)
Theorem unterminated_open_marker_copied
    (content : str) (i : nat) (body : str) (fuel : nat) (result : str) :
  skipn i content = open_marker ++ body ->
  unterminated body ->
  snd (inner_while (length content) content (i + 2) 1) <> 0 /\
  nth_error content i = Some 47%N /\
  outer_while (S fuel) content i result =
    outer_while fuel content (i + 1) (result ++ [47%N]) /\
  fix_multiline_comments (open_marker ++ body) =
    47%N :: fix_multiline_comments (42%N :: body) /\
  fix_multiline_comments (lit "/* never closes") = lit "/* never closes" /\
  fixed_content (lit "/* never closes") = lit "/* never closes".
Proof.
  intros Hs Hun.
  apply unterminated_scan in Hun.
  assert (Hb : skipn (i + 2) content = body).
  { rewrite <- skipn_skipn', Hs. reflexivity. }
  assert (Hi : i < length content).
  { destruct (Nat.lt_ge_cases i (length content)) as [H|H]; [exact H|].
    rewrite skipn_all2 in Hs by lia. discriminate Hs. }
  assert (Hc : index content i = 47%N).
  { pose proof (skipn_cons_nth _ _ Hi) as E. rewrite Hs in E.
    now injection E. }
  split; [|split; [|split; [|split; [|split]]]].
  - rewrite inner_while_scan by lia. now rewrite Hb.
  - rewrite (index_in_range _ _ Hi). now rewrite Hc.
  - rewrite !outer_while_rewrite, Hs.
    assert (Hn : skipn (i + 1) content = 42%N :: body).
    { rewrite <- skipn_skipn', Hs. reflexivity. }
    rewrite Hn.
    change (open_marker ++ body) with (47%N :: 42%N :: body).
    rewrite rewrite_step.
    change (startswith open_marker (47%N :: 42%N :: body)) with true.
    change (skipn 2 (47%N :: 42%N :: body)) with body.
    destruct (scan body 1) as [k depth]. simpl in Hun.
    destruct depth as [|depth]; [congruence|]. cbn [Nat.eqb].
    now rewrite <- app_assoc.
  - now apply fmc_unclosed.
  - vm_compute. reflexivity.
  - vm_compute. reflexivity.
Qed.

Lemma unterminated_open_marker_copied_witness :
  skipn 0 (lit "/* never closes") = open_marker ++ lit " never closes" /\
  unterminated (lit " never closes") /\
  outer_while 1 (lit "/* never closes") 0 [] = [47%N].
Proof.
  assert (Hs : skipn 0 (lit "/* never closes") =
               open_marker ++ lit " never closes") by reflexivity.
  assert (Hun : unterminated (lit " never closes")).
  { apply unterminated_scan. vm_compute. discriminate. }
  split; [exact Hs|]. split; [exact Hun|].
  destruct (unterminated_open_marker_copied _ 0 _ 0 [] Hs Hun)
    as (_ & _ & H & _).
  exact H.
Defined.

(** C7.  On a buffer in which the open marker does not occur the rewrite
    is the identity: [fix_multiline_comments] returns the buffer, no header
    is found, and the text written back is the buffer. *)
Theorem no_open_marker_identity (buffer : str) :
  contains open_marker buffer = false ->
  fix_multiline_comments buffer = buffer /\
  header_match buffer = None /\
  fixed_content buffer = buffer.
Proof.
  intros Hno.
  assert (Hfmc : fix_multiline_comments buffer = buffer).
  { induction buffer as [|c s IH]; [reflexivity|].
    rewrite contains_cons in Hno.
    apply orb_false_iff in Hno as [Hh Ht].
    rewrite (fmc_copy _ _ Hh), (IH Ht). reflexivity. }
  assert (Hm : header_match buffer = None).
  { unfold header_match.
    destruct (startswith (lit "/**") buffer) eqn:Hs; [|reflexivity].
    apply startswith_spec in Hs as [t ->].
    discriminate Hno. }
  split; [exact Hfmc|]. split; [exact Hm|].
  unfold fixed_content. now rewrite Hm.
Qed.

Lemma no_open_marker_identity_witness :
  contains open_marker (lit "const x = 1; // a */ b / * c") = false /\
  fixed_content (lit "const x = 1; // a */ b / * c") =
    lit "const x = 1; // a */ b / * c".
Proof.
  split; [reflexivity|].
  apply (no_open_marker_identity (lit "const x = 1; // a */ b / * c")).
  reflexivity.
Defined.

End RewriteProperties.

(** ** The line reformatter [replace_block] *)

Section Reformatter.

Lemma fold_left_snoc_map (f : str -> str) (lines acc : list str) :
  fold_left (fun acc line => acc ++ [f line]) lines acc =
    acc ++ map f lines.
Proof.
  revert acc; induction lines as [|l ls IH]; intros acc; simpl.
  - now rewrite app_nil_r.
  - rewrite IH, <- app_assoc. reflexivity.
Qed.

Lemma split_cons (sep : char) (s : str) :
  exists l ls, split sep s = l :: ls.
Proof.
  induction s as [|c t (l & ls & IH)]; simpl.
  - now exists [], [].
  - destruct (char_eqb c sep).
    + now exists [], (split sep t).
    + rewrite IH. now exists (c :: l), ls.
Qed.

Lemma split_no_sep (sep : char) (s : str) :
  Forall (fun l => ~ In sep l) (split sep s).
Proof.
  induction s as [|c t IH]; simpl.
  - constructor; [intros []|constructor].
  - destruct (char_eqb c sep) eqn:E.
    + constructor; [intros []|exact IH].
    + destruct (split sep t) as [|l ls].
      * constructor; [|constructor].
        intros [->|[]]. unfold char_eqb in E.
        now rewrite N.eqb_refl in E.
      * inversion IH as [|? ? Hl Hls]; subst. constructor; [|exact Hls].
        intros [->|H]; [|now apply Hl].
        unfold char_eqb in E. now rewrite N.eqb_refl in E.
Qed.

Lemma split_app_no_sep (sep : char) (l rest : str) :
  ~ In sep l ->
  split sep (l ++ sep :: rest) = l :: split sep rest.
Proof.
  induction l as [|c l IH]; intros Hno; simpl.
  - unfold char_eqb. now rewrite N.eqb_refl.
  - destruct (char_eqb c sep) eqn:E.
    + exfalso. apply Hno. left. now apply char_eqb_eq.
    + rewrite IH; [reflexivity|]. intros H. apply Hno. now right.
Qed.

Lemma split_single (sep : char) (l : str) :
  ~ In sep l -> split sep l = [l].
Proof.
  induction l as [|c l IH]; intros Hno; simpl; [reflexivity|].
  destruct (char_eqb c sep) eqn:E.
  - exfalso. apply Hno. left. now apply char_eqb_eq.
  - rewrite IH; [reflexivity|]. intros H. apply Hno. now right.
Qed.

(** Splitting what was joined gives the lines back, when no line holds
    the separator. *)
Lemma split_join (sep : char) (l : str) (ls : list str) :
  Forall (fun l => ~ In sep l) (l :: ls) ->
  split sep (join [sep] (l :: ls)) = l :: ls.
Proof.
  revert l; induction ls as [|l' ls IH]; intros l H.
  - inversion H; subst. now apply split_single.
  - inversion H as [|? ? Hl Hls]; subst.
    change (join [sep] (l :: l' :: ls))
      with (l ++ sep :: join [sep] (l' :: ls)).
    rewrite (split_app_no_sep _ _ _ Hl), (IH _ Hls). reflexivity.
Qed.

(** A line is its leading whitespace followed by its left-stripped
    text. *)
Lemma lstrip_decompose (line : str) :
  exists ws,
    line = ws ++ lstrip line /\ forallb isspace ws = true.
Proof.
  induction line as [|c t (ws & IH & Hws)]; simpl.
  - now exists [].
  - destruct (isspace c) eqn:E.
    + exists (c :: ws). simpl. rewrite E, Hws. split; [|reflexivity].
      now rewrite <- IH.
    + now exists [].
Qed.

Lemma indent_of_spec (line : str) :
  indent_of line ++ lstrip line = line /\
  forallb isspace (indent_of line) = true.
Proof.
  destruct (lstrip_decompose line) as (ws & E & Hws).
  assert (Hi : indent_of line = ws).
  { unfold indent_of, slice. cbn [skipn]. rewrite Nat.sub_0_r.
    rewrite E at 1 3. rewrite length_app.
    apply firstn_app_exact. lia. }
  rewrite Hi. split; [now rewrite <- E|exact Hws].
Qed.

Lemma lstrip_head (line : str) :
  match lstrip line with
  | [] => True
  | c :: _ => isspace c = false
  end.
Proof.
  induction line as [|c t IH]; simpl; [exact I|].
  destruct (isspace c) eqn:E; [exact IH|exact E].
Qed.

Lemma lstrip_all_space (s : str) :
  forallb isspace s = true -> lstrip s = [].
Proof.
  induction s as [|c t IH]; simpl; [reflexivity|].
  destruct (isspace c); [exact IH|discriminate].
Qed.

Lemma lstrip_nil_all_space (s : str) :
  lstrip s = [] -> forallb isspace s = true.
Proof.
  induction s as [|c t IH]; simpl; [reflexivity|].
  destruct (isspace c); [exact IH|discriminate].
Qed.

Lemma forallb_rev (f : char -> bool) (s : str) :
  forallb f (rev s) = forallb f s.
Proof.
  induction s as [|c t IH]; simpl; [reflexivity|].
  rewrite forallb_app, IH. simpl. rewrite andb_true_r. apply andb_comm.
Qed.

(** A line with something left after [strip()] has something left after
    [lstrip()]: the inner test [if stripped:] of the source never fails. *)
Lemma strip_truthy_lstrip (line : str) :
  truthy (strip line) = true -> truthy (lstrip line) = true.
Proof.
  intros H. destruct (lstrip line) eqn:E; [|reflexivity].
  apply lstrip_nil_all_space in E.
  unfold strip, rstrip in H.
  rewrite (lstrip_all_space (rev line)) in H
    by (now rewrite forallb_rev).
  discriminate H.
Qed.

Lemma fixed_line_spec (line : str) :
  fixed_line line =
    if truthy (strip line)
    then indent_of line ++ line_marker ++ lstrip line
    else line.
Proof.
  unfold fixed_line. destruct (truthy (strip line)) eqn:E; [|reflexivity].
  fold (indent_of line). now rewrite (strip_truthy_lstrip _ E).
Qed.

Lemma lstrip_app_space (ws t : str) :
  forallb isspace ws = true -> lstrip (ws ++ t) = lstrip t.
Proof.
  induction ws as [|c ws IH]; simpl; [reflexivity|].
  destruct (isspace c); [exact IH|discriminate].
Qed.

(** Reformatting a line keeps its leading whitespace. *)
Lemma indent_of_fixed_line (line : str) :
  indent_of (fixed_line line) = indent_of line.
Proof.
  rewrite fixed_line_spec.
  destruct (truthy (strip line)); [|reflexivity].
  destruct (indent_of_spec line) as [_ Hws].
  unfold indent_of at 1, slice. cbn [skipn]. rewrite Nat.sub_0_r.
  rewrite (lstrip_app_space _ _ Hws).
  change (lstrip (line_marker ++ lstrip line))
    with (line_marker ++ lstrip line).
  apply firstn_app_exact. rewrite length_app. lia.
Qed.

Lemma fixed_line_no_newline (line : str) :
  ~ In NL line -> ~ In NL (fixed_line line).
Proof.
  intros Hno. rewrite fixed_line_spec.
  destruct (truthy (strip line)); [|exact Hno].
  destruct (indent_of_spec line) as [E _].
  intros H. apply in_app_or in H as [H|H].
  - apply Hno. rewrite <- E. apply in_or_app. now left.
  - apply in_app_or in H as [H|H].
    + simpl in H. unfold NL in H.
      repeat (destruct H as [H|H]; [discriminate H|]). exact H.
    + apply Hno. rewrite <- E. apply in_or_app. now right.
Qed.

Lemma banner_line_no_newline (line : str) :
  ~ In NL line -> ~ In NL (indent_of line ++ banner).
Proof.
  intros Hno H. destruct (indent_of_spec line) as [E _].
  apply in_app_or in H as [H|H].
  - apply Hno. rewrite <- E. apply in_or_app. now left.
  - simpl in H. unfold NL in H.
    repeat (destruct H as [H|H]; [discriminate H|]). exact H.
Qed.

(** [replace_block] as a whole: the banner at the indentation of the
    first line, then every line reformatted, joined by line breaks. *)
Lemma replace_block_join (comment_content : str) :
  replace_block comment_content =
    join [NL]
      ((indent_of (hd [] (split NL comment_content)) ++ banner)
         :: map fixed_line (split NL comment_content)).
Proof.
  unfold replace_block. rewrite fold_left_snoc_map. cbn [app].
  destruct (split_cons NL comment_content) as (l & ls & ->).
  cbn [map hd]. fold (indent_of (fixed_line l)).
  now rewrite indent_of_fixed_line.
Qed.

(** The lines of the replacement text. *)
Lemma replace_block_lines (comment_content : str) :
  split NL (replace_block comment_content) =
    (indent_of (hd [] (split NL comment_content)) ++ banner)
      :: map fixed_line (split NL comment_content).
Proof.
  rewrite replace_block_join.
  pose proof (split_no_sep NL comment_content) as Hno.
  destruct (split_cons NL comment_content) as (l & ls & E).
  rewrite E in *. cbn [hd].
  apply split_join. constructor.
  - inversion Hno; subst. now apply banner_line_no_newline.
  - apply Forall_map. eapply Forall_impl; [|exact Hno].
    intros a Ha. now apply fixed_line_no_newline.
Qed.

(** A line has nothing left after [strip()] exactly when it is empty or
    whitespace only. *)
Lemma strip_truthy_spec (line : str) :
  truthy (strip line) = negb (forallb isspace line).
Proof.
  destruct (forallb isspace line) eqn:E; simpl.
  - unfold strip, rstrip.
    rewrite (lstrip_all_space (rev line)) by (now rewrite forallb_rev).
    reflexivity.
  - unfold strip, rstrip.
    destruct (lstrip (rev (lstrip (rev line)))) eqn:E2; [|reflexivity].
    exfalso. apply lstrip_nil_all_space in E2. rewrite forallb_rev in E2.
    pose proof (lstrip_head (rev line)) as Hh.
    destruct (lstrip (rev line)) as [|c x] eqn:E3.
    + apply lstrip_nil_all_space in E3. rewrite forallb_rev in E3.
      congruence.
    + simpl in E2. rewrite Hh in E2. discriminate E2.
Qed.

(** C5 (as amended).  The lines of the replacement text are the banner
    line followed by the lines of the interior, each reformatted: an empty
    or whitespace-only line is kept as it is, any other line becomes its
    leading whitespace, then [// ], then its left-stripped text.  The
    banner line is the first line of the replacement, at the leading
    whitespace of the first line of the interior.  In particular, for an
    interior whose first line is [foo] at a 2-space indent the first two
    output lines are [  // DISABLED: Implementation pending] and
    [  // foo]. *)
Theorem banner_first_then_lines (interior : str) :
  split NL (replace_block interior) =
    (indent_of (hd [] (split NL interior)) ++ banner)
      :: map fixed_line (split NL interior)
  /\ (forall line,
        fixed_line line =
          (if forallb isspace line then line
           else indent_of line ++ lit "// " ++ lstrip line)
        /\ indent_of line ++ lstrip line = line
        /\ forallb isspace (indent_of line) = true
        /\ match lstrip line with
           | [] => True
           | c :: _ => isspace c = false
           end)
  /\ (forall tail,
        hd [] (split NL (lit "  foo" ++ NL :: tail)) = lit "  foo" /\
        firstn 2 (split NL (replace_block (lit "  foo" ++ NL :: tail))) =
          [lit "  // DISABLED: Implementation pending"; lit "  // foo"])
  /\ split NL (replace_block (lit "  foo")) =
       [lit "  // DISABLED: Implementation pending"; lit "  // foo"].
Proof.
  split; [apply replace_block_lines|].
  split; [|split].
  - intros line. split; [|split; [|split]].
    + rewrite fixed_line_spec, strip_truthy_spec.
      now destruct (forallb isspace line).
    + apply indent_of_spec.
    + apply indent_of_spec.
    + apply lstrip_head.
  - intros tail.
    assert (E : split NL (lit "  foo" ++ NL :: tail) =
                lit "  foo" :: split NL tail).
    { apply split_app_no_sep. vm_compute. intuition discriminate. }
    split; [now rewrite E|].
    rewrite replace_block_lines, E. reflexivity.
  - vm_compute. reflexivity.
Qed.

(** C5 as the specification words it does not hold: when the interior
    begins with a line break, as in a block comment whose text starts on
    the line after the open marker, the first non-blank line is [foo] at a
    2-space indent, yet the banner is the first output line, unindented,
    and a blank line stands between it and [  // foo]. *)
Lemma banner_not_at_first_content_line :
  List.find (fun l => truthy (strip l)) (split NL (NL :: lit "  foo")) =
    Some (lit "  foo") /\
  split NL (replace_block (NL :: lit "  foo")) =
    [lit "// DISABLED: Implementation pending"; []; lit "  // foo"] /\
  firstn 2 (split NL (replace_block (NL :: lit "  foo"))) <>
    [lit "  // DISABLED: Implementation pending"; lit "  // foo"].
Proof.
  split; [reflexivity|]. split; [reflexivity|].
  vm_compute. discriminate.
Qed.

(** C6 (as amended).  For a region whose open marker is immediately
    followed by its close marker the interior is empty, and the
    replacement text is the banner followed by one line break: the banner
    line and an empty line, so that the text after the close marker
    starts on the next line. *)
Theorem empty_region_banner_newline (rest : str) :
  replace_block [] = banner ++ [NL] /\
  split NL (replace_block []) = [banner; []] /\
  closes 1 (close_marker ++ rest) [] rest /\
  fix_multiline_comments (open_marker ++ close_marker ++ rest) =
    banner ++ NL :: fix_multiline_comments rest.
Proof.
  split; [reflexivity|]. split; [reflexivity|].
  split; [apply closes_final|].
  rewrite (fmc_closed (close_marker ++ rest) 2).
  - reflexivity.
  - apply (closes_scan 1 (close_marker ++ rest) [] rest).
    apply closes_final.
Qed.

(** C6 as the specification words it does not hold: a line break is
    added between the banner and the text that followed the close
    marker. *)
Lemma empty_region_adds_line_break :
  fix_multiline_comments (lit "/**/x") =
    lit "// DISABLED: Implementation pending" ++ NL :: lit "x" /\
  fix_multiline_comments (lit "/**/x") <>
    lit "// DISABLED: Implementation pending" ++ lit "x" /\
  replace_block [] <> lit "// DISABLED: Implementation pending".
Proof.
  split; [vm_compute; reflexivity|].
  split; vm_compute; discriminate.
Qed.

End Reformatter.
(** ** Further properties of the rewriter *)

Section ReformatterFacts.

(** Joining what was split gives the text back. *)
Lemma join_split (sep : char) (s : str) : join [sep] (split sep s) = s.
Proof.
  induction s as [|c t IH]; [reflexivity|].
  cbn [split].
  destruct (split_cons sep t) as (l & ls & E). rewrite E in *.
  destruct (char_eqb c sep) eqn:Ec.
  - apply char_eqb_eq in Ec. subst c.
    change (join [sep] ([] :: l :: ls)) with (sep :: join [sep] (l :: ls)).
    now rewrite IH.
  - destruct ls as [|l' ls].
    + cbn [join] in *. now rewrite IH.
    + change (join [sep] ((c :: l) :: l' :: ls))
        with (c :: join [sep] (l :: l' :: ls)).
      now rewrite IH.
Qed.

Lemma forallb_isspace_marked (ws t : str) :
  forallb isspace (ws ++ line_marker ++ t) = false.
Proof.
  rewrite forallb_app. cbn. apply andb_false_r.
Qed.

Lemma lstrip_marked (ws t : str) :
  forallb isspace ws = true ->
  lstrip (ws ++ line_marker ++ t) = line_marker ++ t.
Proof. intros H. now rewrite lstrip_app_space. Qed.

Lemma fixed_line_cases (line : str) :
  fixed_line line =
    if forallb isspace line then line
    else indent_of line ++ line_marker ++ lstrip line.
Proof.
  rewrite fixed_line_spec, strip_truthy_spec.
  now destruct (forallb isspace line).
Qed.

(** Two lines reformatted to the same line are the same line. *)
Lemma fixed_line_injective (a b : str) :
  fixed_line a = fixed_line b -> a = b.
Proof.
  rewrite !fixed_line_cases.
  destruct (indent_of_spec a) as [Ea Wa].
  destruct (indent_of_spec b) as [Eb Wb].
  destruct (forallb isspace a) eqn:Sa; destruct (forallb isspace b) eqn:Sb;
    intros H.
  - exact H.
  - rewrite H, forallb_isspace_marked in Sa. discriminate Sa.
  - rewrite <- H, forallb_isspace_marked in Sb. discriminate Sb.
  - assert (Hs : lstrip a = lstrip b).
    { apply (f_equal lstrip) in H.
      rewrite !lstrip_marked in H by assumption.
      now apply app_inv_head in H. }
    rewrite Hs in H. apply app_inv_tail in H.
    rewrite <- Ea, <- Eb. now rewrite H, Hs.
Qed.

Lemma map_fixed_line_injective (la lb : list str) :
  map fixed_line la = map fixed_line lb -> la = lb.
Proof.
  revert lb; induction la as [|a la IH]; intros [|b lb] H;
    try discriminate; [reflexivity|].
  cbn [map] in H. injection H as Hh Ht.
  f_equal; [now apply fixed_line_injective|now apply IH].
Qed.

(** The line comment a line is turned into, or the blank line kept. *)
Lemma fixed_line_comment (line : str) :
  forallb isspace (fixed_line line) = true \/
  startswith line_marker (lstrip (fixed_line line)) = true.
Proof.
  rewrite fixed_line_cases.
  destruct (forallb isspace line) eqn:E; [now left|right].
  destruct (indent_of_spec line) as [_ Hws].
  rewrite lstrip_marked by exact Hws. apply startswith_app.
Qed.

(** Splitting two texts put end to end: the last line of the first and
    the first line of the second become one line. *)
Lemma split_app (sep : char) (a b : str) :
  split sep (a ++ b) =
    removelast (split sep a)
      ++ (last (split sep a) [] ++ hd [] (split sep b))
      :: tl (split sep b).
Proof.
  induction a as [|c a IH].
  - cbn. destruct (split_cons sep b) as (l & ls & ->). reflexivity.
  - cbn [app split]. rewrite IH.
    destruct (split_cons sep a) as (l & ls & E). rewrite E.
    destruct (char_eqb c sep).
    + reflexivity.
    + destruct ls as [|l' ls]; reflexivity.
Qed.


End ReformatterFacts.

Section RewriterFacts.

(** The inner loop on a suffix stops at depth 0 or with at most one
    character left. *)
Lemma scan_exit (s : str) :
  forall depth,
    snd (scan s depth) = 0 \/ length s - fst (scan s depth) <= 1.
Proof.
  enough (H : forall n s, length s <= n ->
              forall depth,
                snd (scan s depth) = 0 \/
                length s - fst (scan s depth) <= 1)
    by (apply (H (length s)); lia).
  clear s. induction n as [|n IH]; intros s Hn depth.
  - rewrite scan_short by lia. cbn. right. lia.
  - destruct depth as [|d]; [rewrite scan_zero; now left|].
    destruct s as [|a [|b t]]; try (cbn; right; lia).
    cbn [length] in Hn. rewrite scan_step.
    destruct (str_eqb [a; b] open_marker).
    + specialize (IH t ltac:(lia) (S (S d))).
      destruct (scan t (S (S d))); cbn in *; lia.
    + destruct (str_eqb [a; b] close_marker).
      * specialize (IH t ltac:(lia) d).
        destruct (scan t d); cbn in *; lia.
      * specialize (IH (b :: t) ltac:(cbn; lia) (S d)).
        destruct (scan (b :: t) (S d)); cbn in *; lia.
Qed.

Lemma startswith_open_prefix (c : char) (p rest : str) :
  startswith open_marker (c :: p ++ rest) =
  startswith open_marker (c :: p ++ firstn 1 rest).
Proof. destruct p; [destruct rest|]; reflexivity. Qed.


(** The number of lines of two texts put end to end. *)
Lemma lines_app (a b : str) :
  length (split NL (a ++ b)) =
    length (split NL a) + length (split NL b) - 1.
Proof.
  rewrite split_app.
  destruct (split_cons NL a) as (la & lsa & Ea).
  destruct (split_cons NL b) as (lb & lsb & Eb).
  rewrite Ea, Eb, length_app, removelast_firstn_len, length_firstn.
  cbn [length tl]. lia.
Qed.

Lemma lines_positive (a : str) : 0 < length (split NL a).
Proof.
  destruct (split_cons NL a) as (l & ls & ->). cbn. lia.
Qed.

Lemma lines_pieces (ps : list piece) :
  length (split NL (flat_map (output_of replace_block) ps)) =
    length (split NL (flat_map source_of ps))
      + length (filter is_region ps).
Proof.
  induction ps as [|p ps IH]; [reflexivity|].
  cbn [flat_map filter]. rewrite !lines_app, IH.
  pose proof (lines_positive (flat_map source_of ps)) as Hp.
  destruct p as [c|interior]; cbn [output_of source_of is_region length].
  - lia.
  - rewrite !lines_app.
    replace (length (split NL (replace_block interior)))
      with (S (length (split NL interior)))
      by (rewrite replace_block_lines; cbn [length];
          now rewrite length_map).
    pose proof (lines_positive interior) as Hi.
    change (length (split NL open_marker)) with 1.
    change (length (split NL close_marker)) with 1.
    lia.
Qed.

End RewriterFacts.

Section RewriterExtras.

(** X1.  [replace_block] loses nothing of a region's interior: two
    interiors with the same replacement text are the same interior. *)
Theorem replace_block_injective (a b : str) :
  replace_block a = replace_block b -> a = b.
Proof.
  intros H. apply (f_equal (split NL)) in H.
  rewrite !replace_block_lines in H.
  injection H as _ H.
  apply map_fixed_line_injective in H.
  rewrite <- (join_split NL a), <- (join_split NL b).
  now rewrite H.
Qed.

Lemma replace_block_injective_witness :
  replace_block (lit "  a" ++ NL :: lit "b") =
    replace_block (lit "  a" ++ NL :: lit "b") /\
  lit "  a" ++ NL :: lit "b" = lit "  a" ++ NL :: lit "b".
Proof.
  split; [reflexivity|].
  apply (replace_block_injective (lit "  a" ++ NL :: lit "b")
           (lit "  a" ++ NL :: lit "b")).
  reflexivity.
Defined.

(** X2.  The replacement text of a region has one line more than the
    interior, and each of its lines is either blank (empty or whitespace
    only) or, after its leading whitespace, begins with [// ]: no line of
    the interior is left outside a line comment. *)
Theorem replacement_lines_are_comments (interior : str) :
  length (split NL (replace_block interior)) =
    S (length (split NL interior)) /\
  Forall (fun line =>
            forallb isspace line = true \/
            startswith (lit "// ") (lstrip line) = true)
         (split NL (replace_block interior)).
Proof.
  rewrite replace_block_lines. split.
  - cbn [length]. now rewrite length_map.
  - constructor.
    + right.
      destruct (indent_of_spec (hd [] (split NL interior))) as [_ Hws].
      rewrite (lstrip_app_space _ _ Hws). reflexivity.
    + apply Forall_map. apply Forall_forall. intros line _.
      apply fixed_line_comment.
Qed.

(** X3.  The loops of [fix_multiline_comments] come to their end within
    [len(content)] iterations.  After that many iterations the inner
    loop is at its exit test ([j < len(content) - 1 and depth > 0] is
    false), [j] has not gone back and, started inside the text, has not
    passed its end; more iterations change neither loop's result. *)
Theorem loops_end_within_length (content : str) (j depth fuel : nat) :
  length content <= fuel ->
  (let '(j', depth') := inner_while (length content) content j depth in
   (Z.of_nat j' <? Z.of_nat (length content) - 1)%Z && (0 <? depth')
     = false /\
   j <= j' /\
   (j <= length content -> j' <= length content)) /\
  inner_while fuel content j depth =
    inner_while (length content) content j depth /\
  outer_while fuel content 0 [] = fix_multiline_comments content.
Proof.
  intros Hfuel. split; [|split].
  - rewrite inner_while_scan by lia.
    pose proof (scan_exit (skipn j content) depth) as Hexit.
    pose proof (scan_bound (skipn j content) depth) as Hbound.
    rewrite length_skipn in Hexit, Hbound.
    destruct (scan (skipn j content) depth) as [k d]. cbn [fst snd] in *.
    split; [|split; lia].
    destruct Hexit as [->|Hexit]; [apply andb_false_r|].
    apply andb_false_iff. left. apply Z.ltb_ge. lia.
  - now apply inner_while_fuel.
  - now apply outer_while_fuel.
Qed.

Lemma loops_end_within_length_witness :
  length (lit "a /* b */ c") <= 20 /\
  inner_while 20 (lit "a /* b */ c") 4 1 = (9, 0) /\
  outer_while 20 (lit "a /* b */ c") 0 [] =
    fix_multiline_comments (lit "a /* b */ c").
Proof.
  assert (H : length (lit "a /* b */ c") <= 20) by (cbn; lia).
  split; [exact H|].
  destruct (loops_end_within_length (lit "a /* b */ c") 4 1 20 H)
    as (_ & Hi & Ho).
  split; [rewrite Hi; reflexivity|exact Ho].
Defined.

(** X4.  Text in front of the first open marker is copied as it is: when
    no open marker begins inside [prefix] (not even one whose [/] is its
    last character), rewriting [prefix ++ rest] gives [prefix] followed
    by the rewriting of [rest]. *)
Theorem text_before_marker_copied (prefix rest : str) :
  contains open_marker (prefix ++ firstn 1 rest) = false ->
  fix_multiline_comments (prefix ++ rest) =
    prefix ++ fix_multiline_comments rest.
Proof.
  induction prefix as [|c p IH]; intros H; [reflexivity|].
  rewrite <- app_comm_cons, contains_cons in H.
  apply orb_false_iff in H as [Hh Ht].
  rewrite <- app_comm_cons, fmc_copy.
  - now rewrite (IH Ht).
  - now rewrite startswith_open_prefix.
Qed.

Lemma text_before_marker_copied_witness :
  contains open_marker
    (lit "x = a / b; " ++ firstn 1 (lit "/* c */")) = false /\
  fix_multiline_comments (lit "x = a / b; " ++ lit "/* c */") =
    lit "x = a / b; " ++ fix_multiline_comments (lit "/* c */").
Proof.
  split; [reflexivity|].
  apply (text_before_marker_copied (lit "x = a / b; ") (lit "/* c */")).
  reflexivity.
Defined.



(** X6.  Each well-formed region adds one line: the rewritten text
    has as many lines as the text and one more for every comment region
    found in it. *)
Theorem each_region_adds_one_line (content : str) :
  exists pieces,
    regions content pieces /\
    length (split NL (fix_multiline_comments content)) =
      length (split NL content) + length (filter is_region pieces).
Proof.
  destruct (fmc_regions content) as (ps & Hreg & Hsrc & Hout).
  exists ps. split; [exact Hreg|].
  rewrite Hout. pose proof (lines_pieces ps) as H.
  rewrite <- Hsrc in H. exact H.
Qed.

End RewriterExtras.

(** ** [fix_file] and [main] of the rewriter on the files *)

Section FixFiles.

Lemma str_eqb_false (a b : str) : a <> b -> str_eqb a b = false.
Proof.
  intros H. destruct (str_eqb a b) eqn:E; [|reflexivity].
  apply str_eqb_eq in E. contradiction.
Qed.








End FixFiles.

Section FixFilesExtras.



End FixFilesExtras.

(** ** Floats: a quotient within range is finite *)

Section FloatFacts.

Local Open Scope Z_scope.

Lemma Zdigits2_log2 (m : Z) : 0 < m -> Zdigits2 m = Z.succ (Z.log2 m).
Proof.
  destruct m as [|p|p]; try lia. intros _.
  induction p as [p IH|p IH|]; cbn in *.
  - rewrite Pos2Z.inj_succ. f_equal.
    destruct p; cbn in *; try lia.
  - rewrite Pos2Z.inj_succ. f_equal.
    destruct p; cbn in *; try lia.
  - reflexivity.
Qed.

Lemma Zdigits2_nonneg (m : Z) : 0 <= Zdigits2 m.
Proof. destruct m; cbn; lia. Qed.

Lemma Zdigits2_gt (m : Z) : 0 <= m -> m < 2 ^ Zdigits2 m.
Proof.
  intros Hm. destruct (Z.eq_dec m 0) as [->|Hz]; [reflexivity|].
  rewrite Zdigits2_log2 by lia.
  apply Z.log2_spec. lia.
Qed.

Lemma Zdigits2_le (m k : Z) : 0 <= m -> 0 <= k -> m < 2 ^ k -> Zdigits2 m <= k.
Proof.
  intros Hm Hk Hlt. destruct (Z.eq_dec m 0) as [->|Hz]; [exact Hk|].
  rewrite Zdigits2_log2 by lia.
  apply Z.log2_lt_pow2 in Hlt; lia.
Qed.

Lemma shr_1_div2 (r : shr_record) :
  0 <= shr_m r -> shr_m (shr_1 r) = shr_m r / 2.
Proof.
  destruct r as [m r s]. cbn [shr_m]. intros Hm.
  destruct m as [|[p|p|]|p]; try lia; cbn [shr_1 shr_m].
  - reflexivity.
  - rewrite Pos2Z.inj_xI.
    apply Z.div_unique with (r := 1); lia.
  - rewrite Pos2Z.inj_xO.
    apply Z.div_unique with (r := 0); lia.
  - reflexivity.
Qed.

Lemma iter_shr_1 (p : positive) (r : shr_record) :
  0 <= shr_m r ->
  shr_m (iter_pos shr_1 p r) = shr_m r / 2 ^ Zpos p.
Proof.
  revert r. induction p as [p IH|p IH|]; intros r Hr; cbn [iter_pos].
  - assert (H1 : 0 <= shr_m (shr_1 r)).
    { rewrite shr_1_div2 by exact Hr. apply Z.div_pos; lia. }
    assert (H2 : 0 <= shr_m (iter_pos shr_1 p (shr_1 r))).
    { rewrite IH by exact H1. apply Z.div_pos; [exact H1|].
      apply Z.pow_pos_nonneg; lia. }
    rewrite IH by exact H2. rewrite IH by exact H1.
    rewrite shr_1_div2 by exact Hr.
    assert (Hp : 0 < 2 ^ Zpos p) by (apply Z.pow_pos_nonneg; lia).
    rewrite !Z.div_div by lia.
    f_equal.
    replace (Zpos p~1) with (1 + Zpos p + Zpos p) by lia.
    rewrite !Z.pow_add_r by lia. rewrite Z.pow_1_r. lia.
  - assert (H2 : 0 <= shr_m (iter_pos shr_1 p r)).
    { rewrite IH by exact Hr. apply Z.div_pos; [exact Hr|].
      apply Z.pow_pos_nonneg; lia. }
    rewrite IH by exact H2. rewrite IH by exact Hr.
    assert (Hp : 0 < 2 ^ Zpos p) by (apply Z.pow_pos_nonneg; lia).
    rewrite !Z.div_div by lia.
    f_equal.
    replace (Zpos p~0) with (Zpos p + Zpos p) by lia.
    rewrite Z.pow_add_r by lia. reflexivity.
  - rewrite shr_1_div2 by exact Hr. reflexivity.
Qed.

Lemma shr_record_of_loc_m (m : Z) (l : location) :
  shr_m (shr_record_of_loc m l) = m.
Proof. destruct l as [|[| |]]; reflexivity. Qed.

(** [shr_fexp]: the mantissa is divided by a power of two and the
    exponent raised by as much, up to the exponent [fexp] asks for. *)
Lemma shr_fexp_spec (m e : Z) (l : location) :
  0 <= m ->
  let n := fexp PyNum.prec PyNum.emax (Zdigits2 m + e) - e in
  shr_m (fst (shr_fexp PyNum.prec PyNum.emax m e l)) = m / 2 ^ Z.max 0 n /\
  snd (shr_fexp PyNum.prec PyNum.emax m e l) = e + Z.max 0 n.
Proof.
  intros Hm n. unfold shr_fexp. fold n.
  unfold shr. destruct n as [|p|p] eqn:En; cbn [fst snd].
  - rewrite shr_record_of_loc_m. change (Z.max 0 0) with 0.
    rewrite Z.div_1_r. lia.
  - rewrite iter_shr_1 by (rewrite shr_record_of_loc_m; exact Hm).
    rewrite shr_record_of_loc_m.
    replace (Z.max 0 (Zpos p)) with (Zpos p) by lia. split; reflexivity.
  - rewrite shr_record_of_loc_m.
    replace (Z.max 0 (Zneg p)) with 0 by lia.
    rewrite Z.div_1_r. lia.
Qed.

Lemma round_nearest_even_bounds (m : Z) (l : location) :
  m <= round_nearest_even m l <= m + 1.
Proof.
  destruct l as [|[| |]]; cbn [round_nearest_even]; try lia.
  destruct (Z.even m); lia.
Qed.

(** Rounding a mantissa whose value is below [2^1023] never gives an
    infinity. *)
Lemma binary_round_aux_finite (sx : bool) (mx ex : Z) (lx : location) :
  0 <= mx -> ex <= 971 -> Zdigits2 mx + ex <= 1023 ->
  forall s, binary_round_aux PyNum.prec PyNum.emax sx mx ex lx <> S754_infinity s.
Proof.
  intros Hm He Hd s.
  unfold binary_round_aux.
  pose proof (shr_fexp_spec mx ex lx Hm) as [H1m H1e].
  destruct (shr_fexp PyNum.prec PyNum.emax mx ex lx) as [mrs' e'] eqn:E1.
  cbn [fst snd] in H1m, H1e.
  set (n1 := fexp PyNum.prec PyNum.emax (Zdigits2 mx + ex) - ex) in *.
  set (m1 := round_nearest_even (shr_m mrs') (loc_of_shr_record mrs')).
  assert (Hp1 : 0 < 2 ^ Z.max 0 n1) by (apply Z.pow_pos_nonneg; lia).
  assert (Hq : 0 <= shr_m mrs').
  { rewrite H1m. apply Z.div_pos; lia. }
  pose proof (round_nearest_even_bounds (shr_m mrs') (loc_of_shr_record mrs'))
    as Hr. fold m1 in Hr.
  assert (Hm1 : 0 <= m1) by lia.
  pose proof (shr_fexp_spec m1 e' loc_Exact Hm1) as [H2m H2e].
  destruct (shr_fexp PyNum.prec PyNum.emax m1 e' loc_Exact) as [mrs'' e''] eqn:E2.
  cbn [fst snd] in H2m, H2e.
  set (n2 := fexp PyNum.prec PyNum.emax (Zdigits2 m1 + e') - e') in *.
  assert (He' : e' <= 971).
  { rewrite H1e. unfold n1, fexp, emin, PyNum.prec, PyNum.emax. lia. }
  assert (Hd1 : Zdigits2 m1 + e' <= 1024).
  { pose proof (Zdigits2_nonneg mx) as Hdn.
    pose proof (Zdigits2_gt mx Hm) as Hgt.
    destruct (Z.le_gt_cases (Z.max 0 n1) (Zdigits2 mx)) as [Hle|Hgt'].
    - assert (Hb : shr_m mrs' < 2 ^ (Zdigits2 mx - Z.max 0 n1)).
      { rewrite H1m. apply Z.div_lt_upper_bound; [lia|].
        rewrite <- Z.pow_add_r by lia.
        replace (Z.max 0 n1 + (Zdigits2 mx - Z.max 0 n1)) with (Zdigits2 mx)
          by lia.
        exact Hgt. }
      assert (Hb1 : m1 < 2 ^ (Zdigits2 mx - Z.max 0 n1 + 1)).
      { rewrite Z.pow_add_r by lia. rewrite Z.pow_1_r.
        assert (0 < 2 ^ (Zdigits2 mx - Z.max 0 n1))
          by (apply Z.pow_pos_nonneg; lia).
        lia. }
      apply Zdigits2_le in Hb1; lia.
    - assert (Hb : shr_m mrs' = 0).
      { rewrite H1m. apply Z.div_small. split; [lia|].
        apply Z.lt_le_trans with (1 := Hgt).
        apply Z.pow_le_mono_r; lia. }
      assert (Hb1 : m1 < 2 ^ 1) by (rewrite Z.pow_1_r; lia).
      apply Zdigits2_le in Hb1; lia. }
  assert (He'' : e'' <= 971).
  { rewrite H2e. unfold n2, fexp, emin, PyNum.prec, PyNum.emax. lia. }
  destruct (shr_m mrs'') as [|p|p]; try discriminate.
  unfold PyNum.prec, PyNum.emax.
  change (1024 - 53) with 971.
  destruct (Z.leb_spec e'' 971) as [_|Hgt]; [discriminate|lia].
Qed.

(** The quotient of two integers whose ratio is below [2^1000] is a
    float: the division raises nothing. *)
Lemma int_true_divide_returns (a b : Z) :
  b <> 0 -> Z.abs a < 2 ^ 1000 * Z.abs b ->
  exists q, PyNum.int_true_divide a b = inr q.
Proof.
  intros Hb Hab.
  assert (Hdiv : forall (sa sb : bool) (ma mb : positive),
             Zpos ma < 2 ^ 1000 * Zpos mb ->
             forall s, SFdiv PyNum.prec PyNum.emax (S754_finite sa ma 0) (S754_finite sb mb 0)
                       <> S754_infinity s).
  { intros sa sb ma mb Hlt s.
    unfold SFdiv, SFdiv_core_binary.
    set (e' := Z.min (fexp PyNum.prec PyNum.emax (Zdigits2 (Zpos ma) + 0
                                        - (Zdigits2 (Zpos mb) + 0))) (0 - 0)).
    assert (He' : e' <= 0) by (unfold e'; lia).
    set (m' := match 0 - 0 - e' with
               | 0 => Zpos ma
               | Zpos _ => Z.shiftl (Zpos ma) (0 - 0 - e')
               | Zneg _ => 0
               end).
    assert (Hm' : m' = Zpos ma * 2 ^ (- e')).
    { unfold m'. replace (0 - 0 - e') with (- e') by lia.
      destruct (- e') as [|p|p] eqn:E; try lia.
      rewrite Z.shiftl_mul_pow2 by lia. reflexivity. }
    pose proof (Z_div_mod m' (Zpos mb) eq_refl) as Hdm.
    destruct (Z.div_eucl m' (Zpos mb)) as [q r].
    destruct Hdm as [Hq Hr].
    assert (Hp : 0 < 2 ^ (- e')) by (apply Z.pow_pos_nonneg; lia).
    assert (Hq0 : 0 <= q) by nia.
    assert (Hqlt : q < 2 ^ (1000 - e')).
    { replace (1000 - e') with (1000 + - e') by lia.
      rewrite Z.pow_add_r by lia.
      assert (Zpos mb * q < Zpos mb * (2 ^ 1000 * 2 ^ (- e'))); [|nia].
      assert (Zpos ma * 2 ^ (- e') < 2 ^ 1000 * Zpos mb * 2 ^ (- e'))
        by (apply Z.mul_lt_mono_pos_r; lia).
      lia. }
    apply Zdigits2_le in Hqlt; [|exact Hq0|lia].
    apply binary_round_aux_finite; lia. }
  unfold PyNum.int_true_divide.
  destruct a as [|ma|ma]; destruct b as [|mb|mb]; try congruence;
    try (eexists; reflexivity);
    match goal with
    | |- exists q, match ?d with _ => _ end = _ =>
        assert (Hd : forall s, d <> S754_infinity s) by (apply Hdiv; lia);
        destruct d as [s|s| |s m e];
        [eexists; reflexivity | exfalso; exact (Hd s eq_refl)
        | eexists; reflexivity | eexists; reflexivity]
    end.
Qed.

End FloatFacts.

(** ** The comparison of the reports *)

Import PyNum PyFormat CompareReports MetricsSpec Samples.

Section Output.

Lemma bind_print_inv (B : Type) (l : list N) (k : unit -> io B)
    (out : list (list N)) (r : result B) :
  io_bind (print l) k = (out, r) ->
  exists out', out = l :: out' /\ k tt = (out', r).
Proof.
  unfold io_bind, print. destruct (k tt) as [o r'].
  intros [= <- <-]. exists o. split; reflexivity.
Qed.

Lemma bind_eval_inv (A B : Type) (m : result A) (k : A -> io B)
    (out : list (list N)) (v : B) :
  io_bind (eval m) k = (out, inr v) ->
  exists a, m = inr a /\ k a = (out, inr v).
Proof.
  unfold io_bind, eval. destruct m as [e|a]; [discriminate|].
  destruct (k a) as [o r'] eqn:E. cbn [app].
  intros [= <- <-]. exists a. split; [reflexivity|exact E].
Qed.

Lemma snd_bind_print (B : Type) (l : list N) (k : unit -> io B) :
  snd (io_bind (print l) k) = snd (k tt).
Proof. unfold io_bind, print. destruct (k tt); reflexivity. Qed.

Lemma snd_bind_eval (A B : Type) (m : result A) (a : A) (k : A -> io B) :
  m = inr a -> snd (io_bind (eval m) k) = snd (k a).
Proof. intros ->. unfold io_bind, eval. destruct (k a); reflexivity. Qed.

Lemma length_bind_print (B : Type) (l : list N) (k : unit -> io B) :
  length (fst (io_bind (print l) k)) = S (length (fst (k tt))).
Proof. unfold io_bind, print. destruct (k tt); reflexivity. Qed.

End Output.

Section Arithmetic.

Local Open Scope Z_scope.

Lemma mul_int_100 (q : spec_float) :
  num_mul_int (Float q) 100 = inr (Float (SFmul prec emax q float_100)).
Proof. reflexivity. Qed.




Lemma guarded_percentage_returns (part whole : Z) :
  (0 < whole -> Z.abs part < 2 ^ 1000 * whole) ->
  exists r,
    (if 0 <? whole
     then bind (int_true_divide part whole) (fun q => num_mul_int (Float q) 100)
     else inr (Int 0)) = inr r /\ pct_value r.
Proof.
  intros H. destruct (Z.ltb_spec 0 whole) as [Hpos|Hle].
  - destruct (int_true_divide_returns part whole) as [q Hq]; [lia| |].
    + rewrite (Z.abs_eq whole) by lia. auto.
    + rewrite Hq. cbn [bind]. rewrite mul_int_100.
      eexists. split; [reflexivity|exact I].
  - exists (Int 0). split; reflexivity.
Qed.

Lemma format_f_returns (plus : bool) (digits : nat) (x : num) :
  pct_value x -> exists s, format_f plus digits x = inr s.
Proof.
  destruct x as [z|f]; cbn [pct_value].
  - intros ->. eexists. reflexivity.
  - intros _. eexists. reflexivity.
Qed.

Lemma sub_returns (x y : num) :
  pct_value x -> pct_value y -> exists d, num_sub x y = inr d /\ pct_value d.
Proof.
  destruct x as [a|f]; destruct y as [b|g]; cbn [pct_value]; intros Hx Hy;
    subst; eexists; (split; [reflexivity|]); cbn; auto.
Qed.

Lemma le_int (a b : Z) : num_le (Int a) (Int b) = (a <=? b).
Proof.
  unfold num_le, num_compare, num_value, ext_compare.
  rewrite Z.min_id, Z.sub_diag, Z.pow_0_r, !Z.mul_1_r.
  unfold Z.leb. destruct (a ?= b); reflexivity.
Qed.

End Arithmetic.

Section Extract.

Local Open Scope Z_scope.

Lemma extract_metrics_eq (report : report) (tl tt dl dt c : Z) :
  fold_left for_body report (0, 0, 0, 0, 0) = (tl, tt, dl, dt, c) ->
  extract_metrics report =
    bind (if 0 <? tl
          then bind (int_true_divide dl tl) (fun q => num_mul_int (Float q) 100)
          else inr (Int 0))
      (fun line_pct =>
         bind (if 0 <? tt
               then bind (int_true_divide dt tt)
                      (fun q => num_mul_int (Float q) 100)
               else inr (Int 0))
           (fun token_pct =>
              inr {| total_lines := tl;
                     total_tokens := tt;
                     duplicated_lines := dl;
                     duplicated_tokens := dt;
                     total_clones := c;
                     line_duplication_pct := line_pct;
                     token_duplication_pct := token_pct |})).
Proof. intros H. unfold extract_metrics. rewrite H. reflexivity. Qed.

End Extract.

Section Compare.

Local Open Scope Z_scope.

Ltac io_print H :=
  apply bind_print_inv in H as (? & -> & H); cbv beta in H.

Ltac io_eval H x E :=
  apply bind_eval_inv in H as (x & E & H); cbv beta in H.

(** What a run of [compare_metrics] that comes to its end has printed:
    36 lines, the last nine of which are the success criteria. *)
Lemma compare_metrics_output (baseline final : metrics)
    (out : list (list N)) :
  compare_metrics baseline final = (out, inr tt) ->
  exists (token_reduction_pct : num) (pct reduction : list N),
    (if 0 <? duplicated_tokens baseline
     then bind (int_true_divide
                  (duplicated_tokens baseline - duplicated_tokens final)
                  (duplicated_tokens baseline))
            (fun q => num_mul_int (Float q) 100)
     else inr (Int 0)) = inr token_reduction_pct /\
    format_f false 2 (token_duplication_pct final) = inr pct /\
    format_f false 1 token_reduction_pct = inr reduction /\
    length out = 36%nat /\
    skipn 27 out =
      [ rule; lit "SUCCESS CRITERIA:"; [];
        criterion token_duplication_check
          (num_le (token_duplication_pct final) (Float float_4_5))
          (pct ++ lit "%");
        criterion clone_blocks_check
          (total_clones final <=? 100)
          (str_int (total_clones final));
        criterion reduction_check
          (num_ge token_reduction_pct (Int 40))
          (reduction ++ lit "%");
        [];
        verdict (num_le (token_duplication_pct final) (Float float_4_5)
                 && (total_clones final <=? 100)
                 && num_ge token_reduction_pct (Int 40));
        rule ].
Proof.
  intros H. unfold compare_metrics in H. cbv zeta in H.
  do 7 io_print H.
  io_eval H p1 E1. io_print H. io_eval H p2 E2. do 6 io_print H.
  io_eval H p3 E3. io_print H. io_eval H p4 E4. do 3 io_print H.
  io_eval H r1 R1. io_eval H r2 R2. io_eval H r3 R3.
  io_eval H c1 S1. io_eval H c2 S2.
  do 2 io_print H.
  io_eval H p5 E5. io_print H. io_eval H p6 E6. io_print H.
  io_eval H p7 E7. do 2 io_print H.
  io_eval H p8 E8. io_eval H p9 E9. io_eval H p10 E10. io_print H.
  io_eval H p11 E11. io_eval H p12 E12. io_eval H p13 E13.
  do 5 io_print H.
  io_eval H p14 E14. do 2 io_print H.
  io_eval H p15 E15. do 2 io_print H.
  rewrite le_int in H. unfold target_token_pct, target_clones in H.
  set (all_pass := num_le (token_duplication_pct final) (Float float_4_5)
                   && (total_clones final <=? 100) && num_ge r2 (Int 40)) in *.
  assert (Hv : (if all_pass
                then print (party ++ lit " ALL SUCCESS CRITERIA MET! " ++ party)
                else print (warning ++
                  lit "  Some criteria not met. Further refactoring needed."))
               = print (verdict all_pass)) by (destruct all_pass; reflexivity).
  rewrite Hv in H. clear Hv.
  io_print H. injection H as <-.
  exists r2, p14, p15.
  split; [exact R2|]. split; [exact E14|]. split; [exact E15|].
  split; [reflexivity|].
  cbn [skipn]. unfold target_token_pct, target_clones.
  rewrite le_int.
  repeat match goal with |- _ :: _ = _ :: _ => f_equal end;
    unfold criterion, token_duplication_check, clone_blocks_check,
      reduction_check;
    rewrite <- ?app_assoc.
  all: match goal with
       | |- context [pass_or_fail ?b] => destruct b; reflexivity
       end.
Qed.

(** On metrics in range [compare_metrics] comes to its end. *)
Lemma compare_metrics_returns (baseline final : metrics) :
  in_range baseline -> in_range final ->
  exists out, compare_metrics baseline final = (out, inr tt).
Proof.
  intros (Hbl & Hbt & Hbc & Hblp & Hbtp) (Hfl & Hft & Hfc & Hflp & Hftp).
  enough (H : snd (compare_metrics baseline final) = inr tt).
  { destruct (compare_metrics baseline final) as [out r]. exists out.
    cbn [snd] in H. now rewrite H. }
  assert (P : 2 ^ 1000 = 2 * 2 ^ 999) by reflexivity.
  destruct (format_f_returns false 2 _ Hblp) as [p1 E1].
  destruct (format_f_returns false 2 _ Hbtp) as [p2 E2].
  destruct (format_f_returns false 2 _ Hflp) as [p3 E3].
  destruct (format_f_returns false 2 _ Hftp) as [p4 E4].
  destruct (guarded_percentage_returns
              (duplicated_lines baseline - duplicated_lines final)
              (duplicated_lines baseline)) as (r1 & R1 & V1); [lia|].
  destruct (guarded_percentage_returns
              (duplicated_tokens baseline - duplicated_tokens final)
              (duplicated_tokens baseline)) as (r2 & R2 & V2); [lia|].
  destruct (guarded_percentage_returns
              (total_clones baseline - total_clones final)
              (total_clones baseline)) as (r3 & R3 & V3); [lia|].
  destruct (sub_returns _ _ Hblp Hflp) as (c1 & S1 & W1).
  destruct (sub_returns _ _ Hbtp Hftp) as (c2 & S2 & W2).
  destruct (format_f_returns true 1 _ V1) as [p5 E5].
  destruct (format_f_returns true 1 _ V2) as [p6 E6].
  destruct (format_f_returns true 1 _ V3) as [p7 E7].
  destruct (format_f_returns true 2 _ W1) as [p8 E8].
  destruct (format_f_returns true 2 _ W2) as [p9 E9].
  destruct (format_f_returns false 1 _ V2) as [p10 E10].
  unfold compare_metrics. cbv zeta.
  rewrite !snd_bind_print.
  rewrite (snd_bind_eval _ _ _ _ _ E1), snd_bind_print.
  rewrite (snd_bind_eval _ _ _ _ _ E2), !snd_bind_print.
  rewrite (snd_bind_eval _ _ _ _ _ E3), snd_bind_print.
  rewrite (snd_bind_eval _ _ _ _ _ E4), !snd_bind_print.
  rewrite (snd_bind_eval _ _ _ _ _ R1).
  rewrite (snd_bind_eval _ _ _ _ _ R2).
  rewrite (snd_bind_eval _ _ _ _ _ R3).
  rewrite (snd_bind_eval _ _ _ _ _ S1).
  rewrite (snd_bind_eval _ _ _ _ _ S2), !snd_bind_print.
  rewrite (snd_bind_eval _ _ _ _ _ E5), snd_bind_print.
  rewrite (snd_bind_eval _ _ _ _ _ E6), snd_bind_print.
  rewrite (snd_bind_eval _ _ _ _ _ E7), !snd_bind_print.
  rewrite (snd_bind_eval _ _ _ _ _ E1).
  rewrite (snd_bind_eval _ _ _ _ _ E3).
  rewrite (snd_bind_eval _ _ _ _ _ E8), snd_bind_print.
  rewrite (snd_bind_eval _ _ _ _ _ E2).
  rewrite (snd_bind_eval _ _ _ _ _ E4).
  rewrite (snd_bind_eval _ _ _ _ _ E9), !snd_bind_print.
  rewrite (snd_bind_eval _ _ _ _ _ E4), !snd_bind_print.
  rewrite (snd_bind_eval _ _ _ _ _ E10), !snd_bind_print.
  match goal with
  | |- snd (io_bind (if ?b then _ else _) _) = _ => destruct b
  end; rewrite snd_bind_print; reflexivity.
Qed.

End Compare.

(** ** The metrics: what the specification states *)

Section MetricsProperties.

Local Open Scope Z_scope.







End MetricsProperties.

(** ** Further properties of the comparison *)

Section MetricsFacts.

Local Open Scope Z_scope.

Lemma sum_of_cons (key : total_data -> option Z)
    (item : str * format_data) (report : report) :
  sum_of key (item :: report) = count_of key item + sum_of key report.
Proof. reflexivity. Qed.

Lemma for_body_counts (a b c d e : Z) (item : str * format_data) :
  for_body (a, b, c, d, e) item =
    (a + count_of lines item, b + count_of tokens item,
     c + count_of duplicatedLines item,
     d + count_of duplicatedTokens item,
     e + count_of clones item).
Proof.
  unfold for_body, count_of. destruct (total (snd item)); [reflexivity|].
  now rewrite !Z.add_0_r.
Qed.

(** The loop of [extract_metrics] adds up, for each count, what each
    format adds. *)
Lemma for_body_sums (report : report) :
  forall a b c d e,
    fold_left for_body report (a, b, c, d, e) =
      (a + sum_of lines report,
       b + sum_of tokens report,
       c + sum_of duplicatedLines report,
       d + sum_of duplicatedTokens report,
       e + sum_of clones report).
Proof.
  induction report as [|item report IH]; intros a b c d e.
  - cbn. now rewrite !Z.add_0_r.
  - cbn [fold_left].
    rewrite for_body_counts, IH, !sum_of_cons, !Z.add_assoc.
    reflexivity.
Qed.

Lemma totals_are_sums (report : report) :
  fold_left for_body report (0, 0, 0, 0, 0) =
    (sum_of lines report, sum_of tokens report,
     sum_of duplicatedLines report, sum_of duplicatedTokens report,
     sum_of clones report).
Proof. now rewrite for_body_sums. Qed.

Lemma sum_of_permutation (key : total_data -> option Z) (r1 r2 : report) :
  Permutation r1 r2 -> sum_of key r1 = sum_of key r2.
Proof.
  unfold sum_of. induction 1; cbn [map fold_right]; lia.
Qed.

Lemma sum_of_app (key : total_data -> option Z) (r1 r2 : report) :
  sum_of key (r1 ++ r2) = sum_of key r1 + sum_of key r2.
Proof.
  unfold sum_of. induction r1 as [|x r1 IH]; cbn [app map fold_right]; lia.
Qed.

Lemma extract_metrics_of_sums (r1 r2 : report) :
  (forall key, In key [lines; tokens; duplicatedLines; duplicatedTokens;
                       clones] ->
               sum_of key r1 = sum_of key r2) ->
  extract_metrics r1 = extract_metrics r2.
Proof.
  intros H.
  rewrite (extract_metrics_eq r1 _ _ _ _ _ (totals_are_sums r1)).
  rewrite (extract_metrics_eq r2 _ _ _ _ _ (totals_are_sums r2)).
  rewrite (H lines), (H tokens), (H duplicatedLines),
    (H duplicatedTokens), (H clones); cbn; auto 10.
Qed.














(** On a plausible report [extract_metrics] returns metrics in range. *)
Lemma extract_metrics_in_range (report : report) :
  plausible report ->
  exists m, extract_metrics report = inr m /\ in_range m.
Proof.
  intros (Hl & Ht & Hdl & Hdt & Hc). unfold moderate in *.
  rewrite (extract_metrics_eq report _ _ _ _ _ (totals_are_sums report)).
  assert (P : 2 ^ 1000 = 2 * 2 ^ 999) by reflexivity.
  destruct (guarded_percentage_returns (sum_of duplicatedLines report)
              (sum_of lines report)) as (lp & -> & Vl); [nia|].
  destruct (guarded_percentage_returns (sum_of duplicatedTokens report)
              (sum_of tokens report)) as (tp & -> & Vt); [nia|].
  cbn [bind]. eexists. split; [reflexivity|].
  unfold in_range. cbn.
  repeat split; try assumption; lia.
Qed.






End MetricsFacts.

Section MetricsExtras.

Local Open Scope Z_scope.

(** X9.  Each count [extract_metrics] returns is the sum, over the
    formats of the report, of that count in the format's [total]; a
    format without [total], or a [total] without the count, adds 0. *)
Theorem extract_metrics_counts_are_sums (report : report) :
  fold_left for_body report (0, 0, 0, 0, 0) =
    (sum_of lines report, sum_of tokens report,
     sum_of duplicatedLines report, sum_of duplicatedTokens report,
     sum_of clones report) /\
  (forall m, extract_metrics report = inr m ->
     total_lines m = sum_of lines report /\
     total_tokens m = sum_of tokens report /\
     duplicated_lines m = sum_of duplicatedLines report /\
     duplicated_tokens m = sum_of duplicatedTokens report /\
     total_clones m = sum_of clones report).
Proof.
  split; [apply totals_are_sums|].
  intros m.
  rewrite (extract_metrics_eq report _ _ _ _ _ (totals_are_sums report)).
  destruct (if 0 <? sum_of lines report then _ else _) as [e|lp];
    cbn [bind]; [discriminate|].
  destruct (if 0 <? sum_of tokens report then _ else _) as [e|tp];
    cbn [bind]; [discriminate|].
  intros [= <-]. cbn. repeat split.
Qed.

Lemma extract_metrics_counts_are_sums_witness :
  exists m,
    extract_metrics sample_report = inr m /\
    total_lines m = 200 /\ duplicated_lines m = 50 /\ total_clones m = 3.
Proof.
  destruct (extract_metrics sample_report) as [e|m] eqn:E;
    [vm_compute in E; discriminate E|].
  exists m. split; [reflexivity|].
  destruct (proj2 (extract_metrics_counts_are_sums sample_report) m E)
    as (H1 & _ & H3 & _ & H5).
  rewrite H1, H3, H5. repeat split.
Defined.

(** X10.  The metrics do not depend on the order of the formats in the
    report. *)
Theorem extract_metrics_order_independent (r1 r2 : report) :
  Permutation r1 r2 -> extract_metrics r1 = extract_metrics r2.
Proof.
  intros H. apply extract_metrics_of_sums.
  intros key _. now apply sum_of_permutation.
Qed.

Lemma extract_metrics_order_independent_witness :
  Permutation (tokens_only 10 1 ++ sample_report)
              (sample_report ++ tokens_only 10 1) /\
  extract_metrics (tokens_only 10 1 ++ sample_report) =
    extract_metrics (sample_report ++ tokens_only 10 1).
Proof.
  assert (H : Permutation (tokens_only 10 1 ++ sample_report)
                          (sample_report ++ tokens_only 10 1))
    by apply Permutation_app_comm.
  split; [exact H|].
  exact (extract_metrics_order_independent _ _ H).
Defined.

(** X11.  A format that has no [total], or whose [total] has none of the
    five counts, changes nothing: the metrics are those of the report
    without it. *)
Theorem formats_without_counts_ignored
    (r1 r2 : report) (name : str) (format_data : format_data) :
  total format_data = None \/
  total format_data =
    Some {| lines := None; tokens := None; duplicatedLines := None;
            duplicatedTokens := None; clones := None |} ->
  extract_metrics (r1 ++ (name, format_data) :: r2) =
    extract_metrics (r1 ++ r2).
Proof.
  intros H. apply extract_metrics_of_sums. intros key Hkey.
  rewrite !sum_of_app. f_equal.
  unfold sum_of. cbn [map fold_right]. unfold count_of. cbn [snd].
  destruct H as [-> | ->]; [lia|].
  cbn in Hkey.
  destruct Hkey as [<-|[<-|[<-|[<-|[<-|[]]]]]]; cbn; lia.
Qed.

Lemma formats_without_counts_ignored_witness :
  total {| total := None |} = None /\
  extract_metrics
    (sample_report ++ (lit "markdown", {| total := None |}) :: []) =
  extract_metrics (sample_report ++ []).
Proof.
  split; [reflexivity|].
  apply (formats_without_counts_ignored sample_report []
           (lit "markdown") {| total := None |}).
  left. reflexivity.
Defined.








(** X16.  [main] of the comparison, given two paths at which plausible
    jscpd reports are, reads both, prints the 36 lines of the analysis
    and returns: it does not exit and nothing is raised. *)
Theorem main_compares_plausible_reports
    (prog baseline_path final_path : str) (fs : files) (rb rf : report) :
  fs baseline_path = Jscpd rb ->
  fs final_path = Jscpd rf ->
  plausible rb -> plausible rf ->
  exists out,
    main [prog; baseline_path; final_path] fs = (out, Returned) /\
    length out = 36%nat.
Proof.
  intros Hb Hf Pb Pf.
  destruct (extract_metrics_in_range rb Pb) as (b & Eb & Rb).
  destruct (extract_metrics_in_range rf Pf) as (f & Ef & Rf).
  destruct (compare_metrics_returns b f Rb Rf) as [out Hout].
  destruct (compare_metrics_output _ _ _ Hout)
    as (_ & _ & _ & _ & _ & _ & Hlen & _).
  exists out. split; [|exact Hlen].
  unfold main, file_exists, load_report. cbn [length Nat.eqb negb nth].
  rewrite Hb, Hf. cbn [negb].
  unfold compare_reports, io_bind, eval. rewrite Eb, Ef, Hout.
  reflexivity.
Qed.

Lemma main_compares_plausible_reports_witness :
  plausible (tokens_only 10000 1000) /\
  plausible (tokens_only 10000 400) /\
  exists out,
    main [lit "compare"; lit "before.json"; lit "after.json"] sample_files
      = (out, Returned) /\
    length out = 36%nat.
Proof.
  assert (Pb : plausible (tokens_only 10000 1000))
    by (repeat split; vm_compute; congruence).
  assert (Pf : plausible (tokens_only 10000 400))
    by (repeat split; vm_compute; congruence).
  split; [exact Pb|]. split; [exact Pf|].
  exact (main_compares_plausible_reports (lit "compare")
           (lit "before.json") (lit "after.json") sample_files
           (tokens_only 10000 1000) (tokens_only 10000 400)
           eq_refl eq_refl Pb Pf).
Defined.

End MetricsExtras.

